(** * Feed-forward classifier notebooks: training loop and checkpoints

    A shallow embedding of the two notebooks of the repository:

    - "Part 3 - Training Neural Networks": the loader of the data, the
      [nn.Sequential] model built from the hyperparameters, the single
      training step, the training loop with its periodic loss report and
      the cell that checks a prediction;
    - "Saving and Loading Models": the state dict saved and loaded, the
      [checkpoint] dictionary, [torch.save], and [load_checkpoint].

    The notebooks are glue over PyTorch.  The framework primitives they call
    ([nn.Linear], [nn.ReLU], [Tensor.resize_], [optimizer.zero_grad],
    [loss.backward], [optimizer.step], [state_dict], [load_state_dict]) are
    modelled by what they do to shapes, storages and gradient buffers.
    Numbers are kept abstract: every definition is parametric in a type [R]
    of scalars with the operations the code applies to it, so that results
    hold for the framework's floats as well as for exact arithmetic. *)

From Stdlib Require Import ZArith QArith Lia.
From stdpp Require Import base option list strings gmap pretty.

Close Scope Q_scope.
Open Scope string_scope.
Open Scope list_scope.
Open Scope nat_scope.

(** ** Python exceptions and results *)

(** One entry of the error list that [load_state_dict] collects. *)
Inductive load_msg :=
| MissingKeys (keys : list string)
| UnexpectedKeys (keys : list string)
| SizeMismatch (key : string) (ckpt_shape model_shape : list nat).

Inductive exn :=
| IndexError
| KeyError (key : string)
| TypeError
| ZeroDivisionError
| FileNotFoundError (path : string)
| ConfigurationError
| NegativeDimension
| InputShapeError (m1 m2 : list nat)
| LoadStateDictError (msgs : list load_msg).

Inductive result (A : Type) :=
| Ok (a : A)
| Raise (e : exn).
Arguments Ok {A} a.
Arguments Raise {A} e.

#[global] Instance result_ret : MRet result := λ A a, Ok a.
#[global] Instance result_bind : MBind result := λ A B f m,
  match m with
  | Ok a => f a
  | Raise e => Raise e
  end.

#[global] Instance Ok_inj {A} : Inj (=) (=) (@Ok A).
Proof. by intros a b [= ->]. Qed.

(** [l[i]] for a Python list and a non-negative index. *)
Definition py_index {A} (l : list A) (i : nat) : result A :=
  match l !! i with
  | Some a => Ok a
  | None => Raise IndexError
  end.

(** ** Scalars *)

Class Scalar (R : Type) := {
  r0 : R;
  radd : R → R → R;
  rmul : R → R → R;
  ropp : R → R;
  rmax : R → R → R;
  rdiv_int : R → Z → R;
}.

#[global] Instance Q_scalar : Scalar Q := {|
  r0 := 0%Q;
  radd := Qplus;
  rmul := Qmult;
  ropp := Qopp;
  rmax := λ a b, if Qle_bool a b then b else a;
  rdiv_int := λ a n, Qdiv a (inject_Z n);
|}.

#[global] Instance Z_scalar : Scalar Z := {|
  r0 := 0%Z;
  radd := Z.add;
  rmul := Z.mul;
  ropp := Z.opp;
  rmax := Z.max;
  rdiv_int := Z.div;
|}.

(** ** Configurations *)

(** Modelled from the spec: the check of [fc_model.Network] on its
    configuration, whose file is not among the sources.  Valid are a
    positive input and output dimension and positive hidden widths; the
    list of widths may be empty. *)
Definition valid_config (input_size output_size : Z) (hidden : list Z) : bool :=
  bool_decide (0 < input_size)%Z && bool_decide (0 < output_size)%Z
  && forallb (λ h, bool_decide (0 < h)%Z) hidden.

Section Torch.
Context {R : Type} {SR : Scalar R}.

(** ** Tensors *)

(** A tensor is a shape over a flat storage.  The storage may be longer
    than the number of elements the shape addresses (after [resize_] to a
    smaller size); the tensor's elements are the first [numel] of it. *)
Record Tensor := mkTensor { shape : list nat; storage : list R }.

Definition numel (sizes : list nat) : nat := foldr Nat.mul 1 sizes.

Definition elems (t : Tensor) : list R := take (numel (shape t)) (storage t).

Definition zeros (sizes : list nat) : Tensor :=
  mkTensor sizes (replicate (numel sizes) r0).

Definition tensor_of (sizes : list nat) (f : nat → R) : Tensor :=
  mkTensor sizes (f <$> seq 0 (numel sizes)).

(** [t.size()] *)
Definition tensor_size (t : Tensor) : list nat := shape t.

(** [t.resize_(sizes)]: the shape is replaced; the storage grows with
    whatever the fresh memory holds ([uninit], by offset) when the new
    shape addresses more elements, and is left alone otherwise.  No
    check relates the old and the new number of elements. *)
Definition resize_ (uninit : nat → R) (t : Tensor) (sizes : list nat) : Tensor :=
  let have := length (storage t) in
  mkTensor sizes (storage t ++ (uninit <$> seq have (numel sizes - have))).

(** [t.zero_()] *)
Definition zero_ (t : Tensor) : Tensor :=
  mkTensor (shape t) (const r0 <$> storage t).

(** [a.add_(b)], elementwise. *)
Definition tensor_add (a b : Tensor) : Tensor :=
  mkTensor (shape a) (zip_with radd (storage a) (storage b)).

(** [a.add_(c, b)]: [a + c * b], elementwise. *)
Definition tensor_axpy (c : R) (a b : Tensor) : Tensor :=
  mkTensor (shape a) (zip_with (λ x g, radd x (rmul c g)) (storage a) (storage b)).

(** ** Parameters and modules *)

Record Param := mkParam { data : Tensor; grad : option Tensor }.

Record Linear := mkLinear {
  in_features : nat;
  out_features : nat;
  weight : Param;   (* shape [out_features; in_features] *)
  bias : Param;     (* shape [out_features] *)
}.

(** [nn.Linear(in_features, out_features)].  The initial values are drawn
    by the framework; [w0] and [b0] give the value drawn for each entry. *)
Definition nn_Linear (inf outf : Z) (w0 b0 : nat → R) : result Linear :=
  if bool_decide (inf < 0 ∨ outf < 0)%Z then Raise NegativeDimension
  else if bool_decide (inf = 0)%Z then Raise ZeroDivisionError
  else
    let i := Z.to_nat inf in
    let o := Z.to_nat outf in
    Ok (mkLinear i o (mkParam (tensor_of [o; i] w0) None)
                     (mkParam (tensor_of [o] b0) None)).

Definition dot (xs ws : list R) : R :=
  foldl (λ acc p, radd acc (rmul p.1 p.2)) r0 (zip xs ws).

(** Row [r] of a row-major matrix with [n] columns. *)
Definition row (n : nat) (xs : list R) (r : nat) : list R :=
  take n (drop (r * n) xs).

(** [F.linear(x, weight, bias)]: the last dimension of [x] must be
    [in_features]; it is replaced by [out_features]. *)
Definition linear_forward (l : Linear) (x : Tensor) : result Tensor :=
  match last (shape x) with
  | None => Raise (InputShapeError (shape x) [in_features l; out_features l])
  | Some n =>
      if decide (n = in_features l) then
        let batch := removelast (shape x) in
        let w := elems (data (weight l)) in
        let b := elems (data (bias l)) in
        Ok (mkTensor (batch ++ [out_features l])
              (r ← seq 0 (numel batch);
               (λ j, radd (dot (row n (elems x) r) (row n w j))
                          (default r0 (b !! j))) <$> seq 0 (out_features l)))
      else Raise (InputShapeError (shape x) [in_features l; out_features l])
  end.

(** [F.relu] *)
Definition relu (x : Tensor) : Tensor :=
  mkTensor (shape x) (rmax r0 <$> elems x).

Inductive nn_Module :=
| MLinear (l : Linear)
| MReLU.

Definition module_forward (m : nn_Module) (x : Tensor) : result Tensor :=
  match m with
  | MLinear l => linear_forward l x
  | MReLU => Ok (relu x)
  end.

(** [nn.Sequential(OrderedDict([...]))]: named modules, applied in order. *)
Definition Sequential := list (string * nn_Module).

Fixpoint forward (model : Sequential) (x : Tensor) : result Tensor :=
  match model with
  | [] => Ok x
  | (_, m) :: rest => y ← module_forward m x; forward rest y
  end.

(** ** Part 3: the feed-forward network *)

Section Part3_model.
(** Initial value of entry [i] of the parameter called [name]. *)
Variable init : string → nat → R.

(** The cell that builds [model], as a function of its three
    hyperparameters. *)
Definition model_of (input_size : Z) (hidden_sizes : list Z) (output_size : Z)
  : result Sequential :=
  h0 ← py_index hidden_sizes 0;
  fc1 ← nn_Linear input_size h0 (init "fc1.weight") (init "fc1.bias");
  h0 ← py_index hidden_sizes 0;
  h1 ← py_index hidden_sizes 1;
  fc2 ← nn_Linear h0 h1 (init "fc2.weight") (init "fc2.bias");
  h1 ← py_index hidden_sizes 1;
  logits ← nn_Linear h1 output_size (init "logits.weight") (init "logits.bias");
  Ok [("fc1", MLinear fc1); ("relu1", MReLU);
      ("fc2", MLinear fc2); ("relu2", MReLU);
      ("logits", MLinear logits)].
End Part3_model.

(** ** Named parameters *)

Definition linear_parameters (name : string) (l : Linear) : list (string * Param) :=
  [(name +:+ ".weight", weight l); (name +:+ ".bias", bias l)].

Definition map_linear (f : string → Param → Param) (name : string) (l : Linear) : Linear :=
  mkLinear (in_features l) (out_features l)
    (f (name +:+ ".weight") (weight l)) (f (name +:+ ".bias") (bias l)).

Definition module_parameters (name : string) (m : nn_Module) : list (string * Param) :=
  match m with
  | MLinear l => linear_parameters name l
  | MReLU => []
  end.

Definition map_module (f : string → Param → Param) (name : string) (m : nn_Module) : nn_Module :=
  match m with
  | MLinear l => MLinear (map_linear f name l)
  | MReLU => MReLU
  end.

(** [model.parameters()], with the name of each parameter. *)
Definition named_parameters (model : Sequential) : list (string * Param) :=
  nm ← model; module_parameters nm.1 nm.2.

(** In-place update of the parameters of [model]: the optimizer and the
    backward pass hold references to the parameter objects of the model,
    so what they do to a parameter is done to the model. *)
Definition map_parameters (f : string → Param → Param) (model : Sequential) : Sequential :=
  (λ nm, (nm.1, map_module f nm.1 nm.2)) <$> model.

Definition state_dict_of (ps : list (string * Param)) : list (string * Tensor) :=
  (λ np, (np.1, data np.2)) <$> ps.

(** ** Part 3: optimizer, backward pass, one training step *)

(** [optim.SGD(params, lr)]: the optimizer keeps references to the
    parameters it was given, here by name. *)
Record SGD := mkSGD { param_names : list string; lr : R }.

Definition optim_SGD (params : list (string * Param)) (lr : R) : SGD :=
  mkSGD params.*1 lr.

(** [optimizer.zero_grad()]: every gradient buffer that exists is zeroed
    in place. *)
Definition zero_grad (optimizer : SGD) (model : Sequential) : Sequential :=
  map_parameters (λ name p,
    if bool_decide (name ∈ param_names optimizer)
    then mkParam (data p) (zero_ <$> grad p) else p) model.

(** [optimizer.step()]: [p.data.add_(-lr, p.grad)] for every parameter of
    the optimizer that has a gradient. *)
Definition sgd_step (optimizer : SGD) (model : Sequential) : Sequential :=
  map_parameters (λ name p,
    if bool_decide (name ∈ param_names optimizer) then
      match grad p with
      | Some g => mkParam (tensor_axpy (ropp (lr optimizer)) (data p) g) (grad p)
      | None => p
      end
    else p) model.

Section Part3_training.
(** The criterion ([nn.CrossEntropyLoss]) and reverse-mode differentiation
    are the framework's: [criterion output labels] is the scalar loss, and
    [autograd params images labels name] is the gradient of that loss with
    respect to the parameter [name], computed from the parameter values
    and the batch. *)
Variable criterion : Tensor → list Z → result R.
Variable autograd : list (string * Tensor) → Tensor → list Z → string → Tensor.
Variable uninit : nat → R.

(** [loss.backward()]: the gradient of each parameter is added to its
    buffer, or becomes the buffer when there is none yet. *)
Definition accumulate (g : Tensor) (p : Param) : Param :=
  mkParam (data p)
    (Some match grad p with
          | Some old => tensor_add old g
          | None => g
          end).

Definition backward (images : Tensor) (labels : list Z) (model : Sequential) : Sequential :=
  let params := state_dict_of (named_parameters model) in
  map_parameters (λ name p, accumulate (autograd params images labels name) p) model.

(** The statements of an iteration from the forward pass on:
    [output = model.forward(images); loss = criterion(output, labels);
     loss.backward(); optimizer.step()], giving the model and
    [loss.item()]. *)
Definition forward_backward_step (optimizer : SGD) (model : Sequential)
    (images : Tensor) (labels : list Z) : result (Sequential * R) :=
  output ← forward model images;
  loss ← criterion output labels;
  let model := backward images labels model in
  let model := sgd_step optimizer model in
  Ok (model, loss).

(** The single training step of the notebook:
    [images.resize_(64, 784); optimizer.zero_grad(); ...]. *)
Definition training_step (optimizer : SGD) (model : Sequential)
    (batch : Tensor * list Z) : result (Sequential * R) :=
  let images := resize_ uninit batch.1 [64; 784] in
  let model := zero_grad optimizer model in
  forward_backward_step optimizer model images batch.2.

(** [images.resize_(images.size()[0], 784)] *)
Definition flatten_images (images : Tensor) : result Tensor :=
  n ← py_index (tensor_size images) 0;
  Ok (resize_ uninit images [n; 784]).

(** The forward pass of a loop iteration, as the loop reaches it. *)
Definition loop_forward (optimizer : SGD) (model : Sequential) (images : Tensor)
  : result Tensor :=
  images ← flatten_images images;
  forward (zero_grad optimizer model) images.

(** The body of the inner loop without its bookkeeping. *)
Definition train_batch (optimizer : SGD) (model : Sequential)
    (batch : Tensor * list Z) : result (Sequential * R) :=
  images ← flatten_images batch.1;
  let model := zero_grad optimizer model in
  forward_backward_step optimizer model images batch.2.

(** ** Part 3: the training loop *)

(** A printed line [Epoch: e/E...  Loss: v]. *)
Record Report := mkReport { report_epoch : nat; report_epochs : nat; report_loss : R }.

Record LoopState := mkLoop {
  model : Sequential;
  steps : nat;
  running_loss : R;
  stdout : list Report;
}.

Definition loop_body (optimizer : SGD) (epochs print_every e : nat)
    (st : LoopState) (batch : Tensor * list Z) : result LoopState :=
  let steps := steps st + 1 in
  ml ← train_batch optimizer (model st) batch;
  let running_loss := radd (running_loss st) ml.2 in
  if decide (print_every = 0) then Raise ZeroDivisionError
  else if decide (steps mod print_every = 0) then
    Ok (mkLoop ml.1 steps r0
          (stdout st ++ [mkReport (e + 1) epochs
                           (rdiv_int running_loss (Z.of_nat print_every))]))
  else Ok (mkLoop ml.1 steps running_loss (stdout st)).

Fixpoint for_each {A St} (body : St → A → result St) (st : St) (l : list A) : result St :=
  match l with
  | [] => Ok st
  | a :: rest => st' ← body st a; for_each body st' rest
  end.

(** One pass of the outer loop: [running_loss = 0], then the inner loop
    over the batches this epoch's [iter(trainloader)] yields.  The loader
    shuffles, so [trainloader e] gives the batches of epoch [e]. *)
Definition run_epoch (optimizer : SGD) (epochs print_every : nat)
    (trainloader : nat → list (Tensor * list Z))
    (st : LoopState) (e : nat) : result LoopState :=
  let st := mkLoop (model st) (steps st) r0 (stdout st) in
  for_each (loop_body optimizer epochs print_every e) st (trainloader e).

(** The state in which the loop starts: [steps = 0], nothing printed. *)
Definition loop_start (m : Sequential) : LoopState := mkLoop m 0 r0 [].

(** The first [n] passes of [for e in range(epochs)]. *)
Definition run_epochs (optimizer : SGD) (epochs print_every : nat)
    (trainloader : nat → list (Tensor * list Z))
    (m : Sequential) (n : nat) : result LoopState :=
  for_each (run_epoch optimizer epochs print_every trainloader) (loop_start m) (seq 0 n).

Definition training_loop (optimizer : SGD) (epochs print_every : nat)
    (trainloader : nat → list (Tensor * list Z)) (m : Sequential) : result LoopState :=
  run_epochs optimizer epochs print_every trainloader m epochs.

(** The values of [loss.item()] over a run of the inner loop from [m], in
    order, up to the first iteration that raises. *)
Fixpoint loss_items (optimizer : SGD) (m : Sequential)
    (batches : list (Tensor * list Z)) : list R :=
  match batches with
  | [] => []
  | b :: rest =>
      match train_batch optimizer m b with
      | Ok ml => ml.2 :: loss_items optimizer ml.1 rest
      | Raise _ => []
      end
  end.

End Part3_training.

(** The constants of the notebook. *)
Definition epochs : nat := 3.
Definition print_every : nat := 40.

(** ** Saving and loading: the network of [fc_model] *)

(** Modelled from the spec: the class [fc_model.Network], whose file is
    not among the sources; the attributes are those of the notebook's
    printout of the model. *)
Record Network := mkNetwork {
  hidden_layers : list Linear;   (* nn.ModuleList *)
  output : Linear;
  dropout : Q;                   (* nn.Dropout(p) *)
  training : bool;
}.

Definition hidden_name (k : nat) : string := "hidden_layers." +:+ pretty k.

Fixpoint hidden_parameters (k : nat) (ls : list Linear) : list (string * Param) :=
  match ls with
  | [] => []
  | l :: rest => linear_parameters (hidden_name k) l ++ hidden_parameters (S k) rest
  end.

Fixpoint map_hidden (f : string → Param → Param) (k : nat) (ls : list Linear) : list Linear :=
  match ls with
  | [] => []
  | l :: rest => map_linear f (hidden_name k) l :: map_hidden f (S k) rest
  end.

Definition Network_parameters (net : Network) : list (string * Param) :=
  hidden_parameters 0 (hidden_layers net) ++ linear_parameters "output" (output net).

Definition Network_map_parameters (f : string → Param → Param) (net : Network) : Network :=
  mkNetwork (map_hidden f 0 (hidden_layers net)) (map_linear f "output" (output net))
    (dropout net) (training net).

(** [model.state_dict()]: parameter name to parameter values, in order. *)
Definition state_dict (net : Network) : list (string * Tensor) :=
  state_dict_of (Network_parameters net).

(** [model.eval()] *)
Definition eval (net : Network) : Network :=
  mkNetwork (hidden_layers net) (output net) (dropout net) false.

Section FcModel.
Variable init : string → nat → R.
(** Dropout in training mode is the framework's (and random). *)
Variable F_dropout : Q → Tensor → Tensor.

(** Modelled from the spec: the hidden layers [fc_model.Network] builds,
    one affine layer per hidden width, each taking what the one before
    gives. *)
Fixpoint build_hidden (k : nat) (inf : Z) (hidden : list Z) : result (list Linear) :=
  match hidden with
  | [] => Ok []
  | h :: rest =>
      l ← nn_Linear inf h (init (hidden_name k +:+ ".weight")) (init (hidden_name k +:+ ".bias"));
      ls ← build_hidden (S k) h rest;
      Ok (l :: ls)
  end.

(** Modelled from the spec: [fc_model.Network(input_size, output_size,
    hidden_layers, drop_p=0.5)], whose file is not among the sources.  The
    spec gives the contract (a stack of affine layers, one per hidden
    width, then the output layer; a non-positive dimension or a zero
    hidden width is a configuration error); the notebook's printout of the
    model gives the attribute names, the layer sizes and the default
    [Dropout(p=0.5)]. *)
Definition fc_model_Network (input_size output_size : Z) (hidden : list Z)
    (drop_p : option Q) : result Network :=
  if valid_config input_size output_size hidden then
    hl ← build_hidden 0 input_size hidden;
    out ← nn_Linear (List.last hidden input_size) output_size
            (init "output.weight") (init "output.bias");
    Ok (mkNetwork hl out (default (1 # 2)%Q drop_p) true)
  else Raise ConfigurationError.

(** Modelled from the spec: the hidden part of the forward pass of
    [fc_model.Network]. *)
Fixpoint hidden_forward (train : bool) (p : Q) (ls : list Linear) (x : Tensor)
  : result Tensor :=
  match ls with
  | [] => Ok x
  | l :: rest =>
      y ← linear_forward l x;
      let y := relu y in
      let y := if train then F_dropout p y else y in
      hidden_forward train p rest y
  end.

(** Modelled from the spec: the forward pass of [fc_model.Network]: each
    hidden affine layer is followed by the rectified-linear activation and
    by dropout (in training mode only); the output layer gives raw scores. *)
Definition Network_forward (net : Network) (x : Tensor) : result Tensor :=
  y ← hidden_forward (training net) (dropout net) (hidden_layers net) x;
  linear_forward (output net) y.

(** [param.copy_(input_param)], for a parameter that [sd] has with the
    parameter's shape. *)
Definition load_param (sd : gmap string Tensor) (key : string) (p : Param) : Param :=
  match sd !! key with
  | Some t => if decide (shape t = shape (data p)) then mkParam t (grad p) else p
  | None => p
  end.

Definition size_mismatches (sd : gmap string Tensor) (own : list (string * Param))
  : list load_msg :=
  kp ← own;
  match sd !! kp.1 with
  | Some t =>
      if decide (shape t = shape (data kp.2)) then []
      else [SizeMismatch kp.1 (shape t) (shape (data kp.2))]
  | None => []
  end.

Definition load_errors (own : list (string * Param)) (sd : list (string * Tensor))
  : list load_msg :=
  let sdm : gmap string Tensor := list_to_map sd in
  let missing := filter (λ k, sdm !! k = None) own.*1 in
  let unexpected := filter (λ k, k ∉ own.*1) sd.*1 in
  (if missing is [] then [] else [MissingKeys missing])
  ++ (if unexpected is [] then [] else [UnexpectedKeys unexpected])
  ++ size_mismatches sdm own.

(** The parameters of the model after the call, whether it raises or
    not: a tensor is copied where its shape is the parameter's. *)
Definition load_state_dict_update (net : Network) (sd : list (string * Tensor)) : Network :=
  Network_map_parameters (load_param (list_to_map sd)) net.

(** [model.load_state_dict(state_dict)] (strict): every parameter of the
    model is looked up in [sd]; the missing keys, the keys of [sd] the
    model does not have, and each tensor of another shape are reported,
    and any report makes the call raise. *)
Definition load_state_dict (net : Network) (sd : list (string * Tensor)) : result Network :=
  match load_errors (Network_parameters net) sd with
  | [] => Ok (load_state_dict_update net sd)
  | msgs => Raise (LoadStateDictError msgs)
  end.

(** ** Saving and loading: checkpoints *)

(** The Python values a checkpoint holds. *)
Inductive Value :=
| VInt (n : Z)
| VIntList (l : list Z)
| VTensor (t : Tensor)
| VStateDict (sd : list (string * Tensor)).

(** What [torch.save] is given in the notebook: a dictionary, or a bare
    state dict. *)
Inductive Pickle :=
| PDict (d : gmap string Value)
| PStateDict (sd : list (string * Tensor)).

(** [torch.save(obj, path)] and [torch.load(path)] over a file store. *)
Definition torch_save (obj : Pickle) (path : string) (fs : gmap string Pickle)
  : gmap string Pickle := <[path := obj]> fs.

Definition torch_load (path : string) (fs : gmap string Pickle) : result Pickle :=
  match fs !! path with
  | Some obj => Ok obj
  | None => Raise (FileNotFoundError path)
  end.

(** The dictionary the notebook builds for [model]. *)
Definition checkpoint (model : Network) : gmap string Value :=
  {[ "input_size" := VInt 784;
     "output_size" := VInt 10;
     "hidden_layers" := VIntList ((λ each, Z.of_nat (out_features each)) <$> hidden_layers model);
     "state_dict" := VStateDict (state_dict model) ]}.

(** [checkpoint = {...}; torch.save(checkpoint, 'checkpoint.pth')] *)
Definition save_checkpoint (model : Network) (path : string) (fs : gmap string Pickle)
  : gmap string Pickle :=
  torch_save (PDict (checkpoint model)) path fs.

(** [obj[key]] *)
Definition getitem (obj : Pickle) (key : string) : result Value :=
  match obj with
  | PDict d => match d !! key with Some v => Ok v | None => Raise (KeyError key) end
  | PStateDict sd =>
      match (list_to_map sd : gmap string Tensor) !! key with
      | Some t => Ok (VTensor t)
      | None => Raise (KeyError key)
      end
  end.

Definition as_int (v : Value) : result Z :=
  match v with VInt n => Ok n | _ => Raise TypeError end.

Definition as_int_list (v : Value) : result (list Z) :=
  match v with VIntList l => Ok l | _ => Raise TypeError end.

Definition as_state_dict (v : Value) : result (list (string * Tensor)) :=
  match v with VStateDict sd => Ok sd | _ => Raise TypeError end.

Definition load_checkpoint (filepath : string) (fs : gmap string Pickle) : result Network :=
  checkpoint ← torch_load filepath fs;
  input_size ← getitem checkpoint "input_size";
  output_size ← getitem checkpoint "output_size";
  hidden ← getitem checkpoint "hidden_layers";
  input_size ← as_int input_size;
  output_size ← as_int output_size;
  hidden ← as_int_list hidden;
  model ← fc_model_Network input_size output_size hidden None;
  sd ← getitem checkpoint "state_dict";
  sd ← as_state_dict sd;
  load_state_dict model sd.

End FcModel.

End Torch.

Arguments Tensor : clear implicits.
Arguments Param : clear implicits.
Arguments Linear : clear implicits.
Arguments nn_Module : clear implicits.
Arguments Sequential : clear implicits.
Arguments SGD : clear implicits.
Arguments Report : clear implicits.
Arguments LoopState : clear implicits.
Arguments Network : clear implicits.
Arguments Value : clear implicits.
Arguments Pickle : clear implicits.

(** ** The data loader *)

Section DataLoader.
Context {A : Type}.

(** [torch.utils.data.DataLoader(dataset, batch_size=..., shuffle=True)].
    The constructor insists on a positive batch size (it raises
    [ValueError] otherwise). *)
Record Loader := mkLoader { loader_dataset : list A; loader_batch_size : nat }.

Definition DataLoader (dataset : list A) (batch_size : Z) : option Loader :=
  if decide (0 < batch_size)%Z then Some (mkLoader dataset (Z.to_nat batch_size))
  else None.

(** The batches the order of a sampler is cut into: an entry is appended
    to the current batch, which is yielded when it is full; what is left
    at the end is yielded too ([drop_last=False]). *)
Fixpoint batch_sampler (batch_size : nat) (batch : list A) (sampler : list A)
  : list (list A) :=
  match sampler with
  | [] => if batch is [] then [] else [batch]
  | idx :: rest =>
      let batch := batch ++ [idx] in
      if decide (length batch = batch_size)
      then batch :: batch_sampler batch_size [] rest
      else batch_sampler batch_size batch rest
  end.

(** [iter(loader)] for the [e]-th time: the dataset in the order drawn
    for this pass, in batches, each collated into one value. *)
Definition iter_loader {B} (collate : list A → B) (shuffle : nat → list A → list A)
    (loader : Loader) (e : nat) : list B :=
  collate <$> batch_sampler (loader_batch_size loader) []
                (shuffle e (loader_dataset loader)).

(** [len(loader)] *)
Definition loader_len (loader : Loader) : nat :=
  (length (loader_dataset loader) + loader_batch_size loader - 1)
  / loader_batch_size loader.

End DataLoader.

Arguments Loader : clear implicits.

(** ** Part 3: checking the predictions *)

Section Part3_prediction.
Context {R : Type} {SR : Scalar R}.

(** [t[i]]: entry [i] along the first dimension. *)
Definition tensor_getitem (t : Tensor R) (i : nat) : result (Tensor R) :=
  match shape t with
  | [] => Raise IndexError
  | n :: dims =>
      if decide (i < n)
      then Ok (mkTensor dims (take (numel dims) (drop (i * numel dims) (elems t))))
      else Raise IndexError
  end.

(** [t.view(sizes)]: the same values under another shape, which has to
    address as many elements as the tensor holds. *)
Definition view (t : Tensor R) (sizes : list nat) : result (Tensor R) :=
  if decide (numel sizes = numel (shape t)) then Ok (mkTensor sizes (elems t))
  else Raise (InputShapeError (shape t) sizes).

(** [F.softmax(logits, dim=1)] is the framework's. *)
Variable F_softmax : Tensor R → Tensor R.

(** The cell that checks a prediction, on the batch that
    [next(iter(trainloader))] gives: the label printed, the image and the
    class probabilities handed to [helper.view_classify]. *)
Definition predict (model : Sequential R) (batch : Tensor R * list Z)
  : result (Z * Tensor R * Tensor R) :=
  label ← py_index batch.2 0;
  image ← tensor_getitem batch.1 0;
  img ← view image [1; 784];
  logits ← forward model img;
  let ps := F_softmax logits in
  shown ← view img [1; 28; 28];
  Ok (label, shown, ps).

End Part3_prediction.

(** ** Vocabulary of the statements *)

(** The two tensors of an affine layer, and the end of their names. *)
Inductive tensor_field := Weight | Bias.

Definition field_suffix (f : tensor_field) : string :=
  match f with Weight => ".weight" | Bias => ".bias" end.

Section Vocabulary.
Context {R : Type} {SR : Scalar R}.





(** The number of values per example of a batch. *)
Definition flat_dim (images : Tensor R) : nat := numel (tail (shape images)).

Definition sum_losses (ls : list R) : R := foldl radd r0 ls.

Definition field_param (f : tensor_field) (l : Linear R) : Param R :=
  match f with Weight => weight l | Bias => bias l end.

(** The tensors of a layer have the shapes its sizes ask for. *)
Definition linear_wf (l : Linear R) : Prop :=
  shape (data (weight l)) = [out_features l; in_features l]
  ∧ shape (data (bias l)) = [out_features l].

Definition hidden_widths (net : Network R) : list nat :=
  out_features <$> hidden_layers net.

(** The shape of every parameter, by name. *)
Definition parameter_shapes (net : Network R) : list (string * list nat) :=
  (λ kp, (kp.1, shape (data kp.2))) <$> Network_parameters net.

(** Each layer takes what the layer before it gives. *)
Fixpoint chained (inf : nat) (ls : list (Linear R)) : Prop :=
  match ls with
  | [] => True
  | l :: rest => in_features l = inf ∧ chained (out_features l) rest
  end.

(** A network of the given input and output size, with any parameter
    values and gradient buffers: what training makes of a constructed
    network. *)
Definition Network_wf (input_size output_size : nat) (net : Network R) : Prop :=
  0 < input_size ∧ 0 < output_size
  ∧ Forall (λ l, 0 < out_features l ∧ linear_wf l) (hidden_layers net)
  ∧ chained input_size (hidden_layers net)
  ∧ in_features (output net) = List.last (hidden_widths net) input_size
  ∧ out_features (output net) = output_size
  ∧ linear_wf (output net).

(** What relates a layer of the saved model to the layer a fresh model
    has in its place. *)
Definition same_layer (l l' : Linear R) : Prop :=
  in_features l' = in_features l ∧ out_features l' = out_features l
  ∧ linear_wf l ∧ linear_wf l'
  ∧ grad (weight l') = None ∧ grad (bias l') = None.

(** A layer with the same sizes and values and no gradient buffer. *)
Definition detach (l : Linear R) : Linear R :=
  mkLinear (in_features l) (out_features l)
    (mkParam (data (weight l)) None) (mkParam (data (bias l)) None).

End Vocabulary.

(** ** More vocabulary *)

Section MoreVocabulary.
Context {R : Type} {SR : Scalar R}.

(** The lines the bookkeeping of the inner loop prints over a run of
    iterations whose values of [loss.item()] are [losses], entered with
    [steps = s] and [running_loss = r]. *)
Fixpoint reports_from (epochs print_every e s : nat) (r : R) (losses : list R)
  : list (Report R) :=
  match losses with
  | [] => []
  | loss :: rest =>
      if decide ((s + 1) mod print_every = 0) then
        mkReport (e + 1) epochs (rdiv_int (radd r loss) (Z.of_nat print_every))
          :: reports_from epochs print_every e (s + 1) r0 rest
      else reports_from epochs print_every e (s + 1) (radd r loss) rest
  end.

(** The sizes of a module: those of an affine layer, none for an
    activation. *)
Definition module_sizes (m : nn_Module R) : option (nat * nat) :=
  match m with
  | MLinear l => Some (in_features l, out_features l)
  | MReLU => None
  end.

(** The architecture of a model: its modules by name, with their sizes. *)
Definition architecture (m : Sequential R) : list (string * option (nat * nat)) :=
  (λ nm, (nm.1, module_sizes nm.2)) <$> m.

(** The shape of every parameter of a model, by name. *)
Definition named_shapes (m : Sequential R) : list (string * list nat) :=
  (λ np, (np.1, shape (data np.2))) <$> named_parameters m.

(** What a forward pass gives up to the values: the shape of the result,
    or the exception. *)
Definition result_shape (r : result (Tensor R)) : result (list nat) :=
  match r with
  | Ok t => Ok (shape t)
  | Raise e => Raise e
  end.

(** What [load_state_dict] reports for a tensor of the state dict and the
    parameter it is meant for. *)
Definition mismatch_report (kt : string * Tensor R) (kp : string * Param R) : list load_msg :=
  if decide (shape kt.2 = shape (data kp.2)) then []
  else [SizeMismatch kp.1 (shape kt.2) (shape (data kp.2))].

(** What [load_state_dict] leaves in a parameter it was given a tensor
    for. *)
Definition copied_param (kt : string * Tensor R) (kp : string * Param R) : string * Param R :=
  (kp.1, if decide (shape kt.2 = shape (data kp.2)) then mkParam kt.2 (grad kp.2) else kp.2).

(** The gradient buffer of every parameter, by name. *)
Definition parameter_grads (net : Network R) : list (string * option (Tensor R)) :=
  (λ kp, (kp.1, grad kp.2)) <$> Network_parameters net.

End MoreVocabulary.

(** ** Sample inputs *)

(** Small concrete models, used to run the definitions: over integer
    scalars for the checkpoint code, over rationals for the training
    loop. *)
Definition sample_init (name : string) (i : nat) : Z :=
  (Z.of_nat (String.length name + i) mod 3 - 1)%Z.

Definition sample_uninit (i : nat) : Z := 7%Z.

Definition unwrap {A} (d : A) (r : result A) : A :=
  match r with Ok a => a | Raise _ => d end.

(** A model with the notebook's input width and small hidden layers. *)
Definition sample_model : Sequential Z :=
  Eval vm_compute in unwrap [] (model_of sample_init 784 [3; 2]%Z 2).

(** A batch of two 3x3 images: 9 values per example, not 784. *)
Definition sample_small_batch : Tensor Z :=
  mkTensor [2; 1; 3; 3] (Z.of_nat <$> seq 0 18).

Definition no_network : Network Z :=
  mkNetwork [] (mkLinear 0 0 (mkParam (zeros []) None) (mkParam (zeros []) None))
    0%Q false.

(** [fc_model.Network(3, 2, [2], drop_p=0.2)] *)
Definition sample_network : Network Z :=
  Eval vm_compute in
    unwrap no_network (fc_model_Network sample_init 3 2 [2]%Z (Some (1 # 5)%Q)).

(** [fc_model.Network(784, 10, [2], drop_p=0.2)] *)
Definition sample_network_784 : Network Z :=
  Eval vm_compute in
    unwrap no_network (fc_model_Network sample_init 784 10 [2]%Z (Some (1 # 5)%Q)).

(** What loading the checkpoint of [sample_network_784] gives. *)
Definition sample_loaded : Network Z :=
  Eval vm_compute in
    unwrap no_network
      (load_checkpoint sample_init "checkpoint.pth"
         (save_checkpoint sample_network_784 "checkpoint.pth" ∅)).

(** [fc_model.Network(3, 2, [4])] *)
Definition sample_other_network : Network Z :=
  Eval vm_compute in unwrap no_network (fc_model_Network sample_init 3 2 [4]%Z None).

Definition sample_initQ (name : string) (i : nat) : Q := inject_Z (sample_init name i).

(** Dropout in training mode when the random mask happens to drop
    nothing: every value is scaled by 1 / (1 - p). *)
Definition keep_all_dropout (p : Q) (t : Tensor Q) : Tensor Q :=
  mkTensor (shape t) ((λ v, v / (1 - p))%Q <$> elems t).

Definition no_networkQ : Network Q :=
  mkNetwork [] (mkLinear 0 0 (mkParam (zeros []) None) (mkParam (zeros []) None))
    0%Q false.

(** [fc_model.Network(784, 10, [2], drop_p=0.2)] over rationals, and what
    loading its checkpoint gives. *)
Definition sample_networkQ : Network Q :=
  Eval vm_compute in
    unwrap no_networkQ (fc_model_Network sample_initQ 784 10 [2]%Z (Some (1 # 5)%Q)).

Definition sample_loadedQ : Network Q :=
  Eval vm_compute in
    unwrap no_networkQ
      (load_checkpoint sample_initQ "checkpoint.pth"
         (save_checkpoint sample_networkQ "checkpoint.pth" ∅)).

Definition sample_onesQ : Tensor Q := mkTensor [1; 784] (replicate 784 1%Q).

Definition sample_modelQ : Sequential Q :=
  Eval vm_compute in unwrap [] (model_of sample_initQ 784 [3; 2]%Z 2).

(** A criterion with positive values that depends on the output. *)
Definition sample_criterion (output : Tensor Q) (labels : list Z) : result Q :=
  Ok (foldl (λ acc v, acc + v * v)%Q 1%Q (elems output)).

(** A gradient of ones, of the shape of the parameter. *)
Definition sample_autograd (params : list (string * Tensor Q)) (images : Tensor Q)
    (labels : list Z) (name : string) : Tensor Q :=
  match (list_to_map params : gmap string (Tensor Q)) !! name with
  | Some t => mkTensor (shape t) (const 1%Q <$> storage t)
  | None => mkTensor [] []
  end.

Definition sample_uninitQ (i : nat) : Q := 0%Q.

Definition sample_optimizer : SGD Q := optim_SGD (named_parameters sample_modelQ) 1%Q.

Definition sample_batch : Tensor Q * list Z := (mkTensor [1; 2] [1%Q; 2%Q], [0%Z]).

(** A loader of [n] batches an epoch. *)
Definition sample_loader (n : nat) (e : nat) : list (Tensor Q * list Z) :=
  replicate n sample_batch.

(** The state after the first epoch, and after the second, with 2 batches
    an epoch and a report every 3 steps. *)
Definition sample_state_1 : LoopState Q :=
  Eval vm_compute in
    unwrap (loop_start [])
      (run_epochs sample_criterion sample_autograd sample_uninitQ sample_optimizer
         epochs 3 (sample_loader 2) sample_modelQ 1).

Definition sample_state_2 : LoopState Q :=
  Eval vm_compute in
    unwrap (loop_start [])
      (run_epoch sample_criterion sample_autograd sample_uninitQ sample_optimizer
         epochs 3 (sample_loader 2) sample_state_1 1).

(** The same with the notebook's [print_every] and 40 batches an epoch. *)
Definition sample_full_state_1 : LoopState Q :=
  Eval vm_compute in
    unwrap (loop_start [])
      (run_epochs sample_criterion sample_autograd sample_uninitQ sample_optimizer
         epochs print_every (sample_loader 40) sample_modelQ 1).

Definition sample_full_state_2 : LoopState Q :=
  Eval vm_compute in
    unwrap (loop_start [])
      (run_epoch sample_criterion sample_autograd sample_uninitQ sample_optimizer
         epochs print_every (sample_loader 40) sample_full_state_1 1).

(** The state after the first epoch, and after the second, with 7 batches
    an epoch and a report every 3 steps. *)
Definition sample_long_state_1 : LoopState Q :=
  Eval vm_compute in
    unwrap (loop_start [])
      (run_epochs sample_criterion sample_autograd sample_uninitQ sample_optimizer
         epochs 3 (sample_loader 7) sample_modelQ 1).

Definition sample_long_state_2 : LoopState Q :=
  Eval vm_compute in
    unwrap (loop_start [])
      (run_epoch sample_criterion sample_autograd sample_uninitQ sample_optimizer
         epochs 3 (sample_loader 7) sample_long_state_1 1).

(** What the single training step makes of the sample model. *)
Definition sample_step : Sequential Q * Q :=
  Eval vm_compute in
    unwrap ([], 0%Q)
      (training_step sample_criterion sample_autograd sample_uninitQ
         (optim_SGD (named_parameters sample_modelQ) 1%Q) sample_modelQ sample_batch).

(** A batch of two images of 28 by 28 values. *)
Definition sample_mnist_batch : Tensor Z :=
  mkTensor [2; 1; 28; 28] (Z.of_nat <$> seq 0 1568).

(** [fc_model.Network(3, 2, [2])] with other values than a fresh network
    has: a trained one. *)
Definition sample_trained_network : Network Z :=
  Eval vm_compute in
    unwrap no_network (fc_model_Network (λ _ _, 5%Z) 3 2 [2]%Z None).

(** The state after two epochs of 7 batches with a report every 40
    steps: nothing is printed. *)
Definition sample_quiet_state_2 : LoopState Q :=
  Eval vm_compute in
    unwrap (loop_start [])
      (run_epochs sample_criterion sample_autograd sample_uninitQ sample_optimizer
         5 print_every (sample_loader 7) sample_modelQ 2).

(** * Properties *)

(** ** Results *)

Lemma bind_Ok {A B} (m : result A) (f : A → result B) (b : B) :
  m ≫= f = Ok b ↔ ∃ a, m = Ok a ∧ f a = Ok b.
Proof.
  destruct m as [a|e]; simpl.
  - split; [eauto | by intros (a' & [= ->] & ?)].
  - split; [done | by intros (a' & ? & ?)].
Qed.

Lemma bind_Ok_l {A B} (a : A) (f : A → result B) : Ok a ≫= f = f a.
Proof. done. Qed.

Lemma py_index_Ok {A} (l : list A) (i : nat) (a : A) :
  py_index l i = Ok a ↔ l !! i = Some a.
Proof.
  unfold py_index. destruct (l !! i) as [a'|]; [|done].
  split; congruence.
Qed.

Ltac inv_result :=
  repeat match goal with
    | H : _ ≫= _ = Ok _ |- _ =>
        let a := fresh "a" in
        let Ha := fresh "Ha" in
        apply bind_Ok in H as (a & Ha & H)
    | H : py_index _ _ = Ok _ |- _ => apply py_index_Ok in H
    | H : Ok _ = Ok _ |- _ => apply (inj Ok) in H
    | H : Raise _ = Ok _ |- _ => discriminate H
    | H : Ok _ = Raise _ |- _ => discriminate H
    end.

Section Properties.
Context {R : Type} {SR : Scalar R}.
Implicit Types (x y : Tensor R) (l : Linear R) (m : Sequential R).

(** ** Layers *)

Lemma nn_Linear_Ok (inf outf : Z) (w0 b0 : nat → R) :
  (0 < inf)%Z → (0 ≤ outf)%Z →
  nn_Linear inf outf w0 b0 =
    Ok (mkLinear (Z.to_nat inf) (Z.to_nat outf)
          (mkParam (tensor_of [Z.to_nat outf; Z.to_nat inf] w0) None)
          (mkParam (tensor_of [Z.to_nat outf] b0) None)).
Proof.
  intros Hi Ho. unfold nn_Linear.
  rewrite !bool_decide_eq_false_2 by lia. done.
Qed.

Lemma nn_Linear_inv (inf outf : Z) (w0 b0 : nat → R) l :
  nn_Linear inf outf w0 b0 = Ok l →
  (0 < inf)%Z ∧ (0 ≤ outf)%Z ∧
  l = mkLinear (Z.to_nat inf) (Z.to_nat outf)
        (mkParam (tensor_of [Z.to_nat outf; Z.to_nat inf] w0) None)
        (mkParam (tensor_of [Z.to_nat outf] b0) None).
Proof.
  unfold nn_Linear. repeat case_bool_decide; intros Hl; inv_result.
  split_and!; [lia | lia | done].
Qed.

Lemma linear_forward_shape l x (batch : list nat) :
  shape x = batch ++ [in_features l] →
  ∃ y, linear_forward l x = Ok y ∧ shape y = batch ++ [out_features l].
Proof.
  intros Hx. unfold linear_forward.
  rewrite Hx, last_snoc, removelast_last.
  rewrite decide_True by done. eauto.
Qed.

Lemma linear_forward_mismatch l x (n : nat) :
  last (shape x) = Some n → n ≠ in_features l →
  linear_forward l x = Raise (InputShapeError (shape x) [in_features l; out_features l]).
Proof.
  intros Hlast Hn. unfold linear_forward. rewrite Hlast.
  by rewrite decide_False.
Qed.

Lemma forward_app m1 m2 x :
  forward (m1 ++ m2) x = forward m1 x ≫= forward m2.
Proof.
  revert x. induction m1 as [|[name md] m1 IH]; intros x; simpl; [done|].
  destruct (module_forward md x); simpl; auto.
Qed.

(** The model cell reads [hidden_sizes[0]] and [hidden_sizes[1]]. *)
Lemma model_of_inv (init : string → nat → R) (i o : Z) (hs : list Z) m :
  model_of init i hs o = Ok m →
  ∃ h0 h1 rest fc1 fc2 logits,
    hs = h0 :: h1 :: rest ∧
    nn_Linear i h0 (init "fc1.weight") (init "fc1.bias") = Ok fc1 ∧
    nn_Linear h0 h1 (init "fc2.weight") (init "fc2.bias") = Ok fc2 ∧
    nn_Linear h1 o (init "logits.weight") (init "logits.bias") = Ok logits ∧
    m = [("fc1", MLinear fc1); ("relu1", MReLU);
         ("fc2", MLinear fc2); ("relu2", MReLU);
         ("logits", MLinear logits)].
Proof.
  unfold model_of. intros Hm. inv_result.
  destruct hs as [|h0 [|h1 rest]]; simplify_eq/=. eauto 12.
Qed.

Lemma model_of_Ok (init : string → nat → R) (i o h0 h1 : Z) (rest : list Z) :
  (0 < i)%Z → (0 < h0)%Z → (0 < h1)%Z → (0 ≤ o)%Z →
  ∃ fc1 fc2 logits,
    model_of init i (h0 :: h1 :: rest) o =
      Ok [("fc1", MLinear fc1); ("relu1", MReLU);
          ("fc2", MLinear fc2); ("relu2", MReLU);
          ("logits", MLinear logits)] ∧
    in_features fc1 = Z.to_nat i ∧ out_features fc1 = Z.to_nat h0 ∧
    in_features fc2 = Z.to_nat h0 ∧ out_features fc2 = Z.to_nat h1 ∧
    in_features logits = Z.to_nat h1 ∧ out_features logits = Z.to_nat o.
Proof.
  intros Hi H0 H1 Ho. unfold model_of. simpl.
  rewrite !nn_Linear_Ok by lia. simpl. eauto 12.
Qed.

(** Changing gradient buffers leaves the forward pass alone. *)
Lemma forward_map_parameters (f : string → Param R → Param R) m x :
  (∀ name p, data (f name p) = data p) →
  forward (map_parameters f m) x = forward m x.
Proof.
  intros Hf. revert x. induction m as [|[name md] m IH]; intros x; [done|].
  simpl. assert (module_forward (map_module f name md) x = module_forward md x) as ->.
  { destruct md as [l|]; [|done]. simpl. unfold linear_forward. simpl.
    by rewrite !Hf. }
  destruct (module_forward md x); simpl; auto.
Qed.

Lemma forward_zero_grad (opt : SGD R) m x :
  forward (zero_grad opt m) x = forward m x.
Proof.
  apply forward_map_parameters. intros name p. by case_bool_decide.
Qed.

Lemma forward_layers_shape (fc1 fc2 logits : Linear R) x (batch : list nat) :
  out_features fc1 = in_features fc2 →
  out_features fc2 = in_features logits →
  shape x = batch ++ [in_features fc1] →
  ∃ y, forward [("fc1", MLinear fc1); ("relu1", MReLU);
                ("fc2", MLinear fc2); ("relu2", MReLU);
                ("logits", MLinear logits)] x = Ok y
       ∧ shape y = batch ++ [out_features logits].
Proof.
  intros H12 H23 Hx. simpl.
  destruct (linear_forward_shape fc1 x batch Hx) as (y1 & -> & Hy1). simpl.
  destruct (linear_forward_shape fc2 (relu y1) batch) as (y2 & -> & Hy2).
  { simpl. by rewrite Hy1, H12. }
  simpl.
  destruct (linear_forward_shape logits (relu y2) batch) as (y3 & -> & Hy3).
  { simpl. by rewrite Hy2, H23. }
  simpl. eauto.
Qed.

Lemma valid_config_inv (i o : Z) (hs : list Z) :
  valid_config i o hs = true →
  (0 < i)%Z ∧ (0 < o)%Z ∧ Forall (λ h, 0 < h)%Z hs.
Proof.
  unfold valid_config. rewrite !andb_true_iff, !bool_decide_eq_true.
  intros [[Hi Ho] Hh]. split_and!; [done..|].
  apply Forall_forall. intros h Hin.
  rewrite forallb_forall in Hh. apply list_elem_of_In, Hh in Hin.
  by apply bool_decide_eq_true in Hin.
Qed.

(** ** The classifier of Part 3 *)

(** The model cell has two hidden layers: it reads [hidden_sizes[0]] and
    [hidden_sizes[1]].  For positive sizes it builds a model whose forward
    pass takes batches of [input_size] values to batches of [output_size]
    scores. *)
Lemma model_cell_forward_shape (init : string → nat → R) (i o : Z) (hs : list Z)
    (batch_size : nat) x :
  valid_config i o hs = true →
  2 ≤ length hs →
  shape x = [batch_size; Z.to_nat i] →
  ∃ m y, model_of init i hs o = Ok m ∧ forward m x = Ok y
         ∧ shape y = [batch_size; Z.to_nat o].
Proof.
  intros (Hi & Ho & Hh)%valid_config_inv Hlen Hx.
  destruct hs as [|h0 [|h1 rest]]; simpl in Hlen; [lia..|].
  apply Forall_cons in Hh as [H0 Hh]. apply Forall_cons in Hh as [H1 _].
  destruct (model_of_Ok init i o h0 h1 rest) as
    (fc1 & fc2 & logits & Hm & Hi1 & Ho1 & Hi2 & Ho2 & Hi3 & Ho3); [lia..|].
  destruct (forward_layers_shape fc1 fc2 logits x [batch_size]) as (y & Hy & Hs).
  { congruence. } { congruence. } { by rewrite Hi1. }
  eexists _, y. split; [exact Hm|]. split; [exact Hy|]. by rewrite Hs, Ho3.
Qed.

(** C5.  The last module of the model is the affine layer [logits] with
    [output_size] outputs, and the forward pass is the forward pass of
    the modules before it followed by that affine map alone: the scores
    come out of the last linear transformation with nothing applied to
    them. *)
Theorem logits_are_raw_scores (init : string → nat → R) (i o : Z) (hs : list Z) m :
  model_of init i hs o = Ok m →
  ∃ body logits,
    m = body ++ [("logits", MLinear logits)]
    ∧ out_features logits = Z.to_nat o
    ∧ (∀ x, forward m x = forward body x ≫= linear_forward logits)
    ∧ (∀ x y, forward m x = Ok y → last (shape y) = Some (Z.to_nat o)).
Proof.
  intros (h0 & h1 & rest & fc1 & fc2 & logits & -> & H1 & H2 & H3 & ->)%model_of_inv.
  apply nn_Linear_inv in H3 as (? & ? & Hl).
  exists [("fc1", MLinear fc1); ("relu1", MReLU);
          ("fc2", MLinear fc2); ("relu2", MReLU)], logits.
  assert (out_features logits = Z.to_nat o) as Hout by (by rewrite Hl).
  assert (∀ x, forward
      ([("fc1", MLinear fc1); ("relu1", MReLU); ("fc2", MLinear fc2);
        ("relu2", MReLU)] ++ [("logits", MLinear logits)]) x
    = forward [("fc1", MLinear fc1); ("relu1", MReLU); ("fc2", MLinear fc2);
        ("relu2", MReLU)] x ≫= linear_forward logits) as Hfw.
  { intros x. rewrite forward_app. destruct (forward _ x) as [h|]; [|done].
    simpl. by destruct (linear_forward logits h). }
  split_and!; [done | done | exact Hfw |].
  intros x y Hy. change (forward _ x = Ok y) with
    (forward ([("fc1", MLinear fc1); ("relu1", MReLU); ("fc2", MLinear fc2);
        ("relu2", MReLU)] ++ [("logits", MLinear logits)]) x = Ok y) in Hy.
  rewrite Hfw in Hy. inv_result.
  unfold linear_forward in Hy. destruct (last (shape a)); [|done].
  case_decide; [|done]. inv_result. subst y. simpl.
  by rewrite last_snoc, Hout.
Qed.

Lemma flatten_images_Ok (uninit : nat → R) (images : Tensor R) (b0 : nat) (dims : list nat) :
  shape images = b0 :: dims →
  flatten_images uninit images = Ok (resize_ uninit images [b0; 784]).
Proof. intros Himg. unfold flatten_images, tensor_size. by rewrite Himg. Qed.

(** C6 (as amended).  The forward pass raises an input-shape error on
    every tensor whose last dimension differs from the configured input
    size.  A loop iteration, however, first resizes its batch in place to
    (batch_size, 784), whatever the batch holds per example; so in the
    loop the error is raised exactly when the configured input size is
    not 784, and with input size 784 every batch goes through. *)
Theorem loop_forward_input_shape (init : string → nat → R) (uninit : nat → R)
    (i o : Z) (hs : list Z) m (opt : SGD R) (images : Tensor R)
    (b0 : nat) (dims : list nat) :
  model_of init i hs o = Ok m →
  shape images = b0 :: dims →
  (∀ x n, last (shape x) = Some n → n ≠ Z.to_nat i →
     ∃ w, forward m x = Raise (InputShapeError (shape x) w))
  ∧ (Z.to_nat i ≠ 784 →
     ∃ w, loop_forward uninit opt m images = Raise (InputShapeError [b0; 784] w))
  ∧ (Z.to_nat i = 784 →
     ∃ y, loop_forward uninit opt m images = Ok y ∧ shape y = [b0; Z.to_nat o]).
Proof.
  intros (h0 & h1 & rest & fc1 & fc2 & logits & -> & H1 & H2 & H3 & ->)%model_of_inv Himg.
  apply nn_Linear_inv in H1 as (? & ? & Hfc1).
  apply nn_Linear_inv in H2 as (? & ? & Hfc2).
  apply nn_Linear_inv in H3 as (? & ? & Hlog).
  assert (in_features fc1 = Z.to_nat i) as Hin by (by rewrite Hfc1).
  assert (∀ x n, last (shape x) = Some n → n ≠ Z.to_nat i →
     ∃ w, forward [("fc1", MLinear fc1); ("relu1", MReLU); ("fc2", MLinear fc2);
                   ("relu2", MReLU); ("logits", MLinear logits)] x
          = Raise (InputShapeError (shape x) w)) as Hraise.
  { intros x n Hlast Hn. simpl.
    rewrite (linear_forward_mismatch fc1 x n) by (done || congruence). simpl. eauto. }
  assert (∀ x, forward (zero_grad opt [("fc1", MLinear fc1); ("relu1", MReLU);
      ("fc2", MLinear fc2); ("relu2", MReLU); ("logits", MLinear logits)]) x
    = forward [("fc1", MLinear fc1); ("relu1", MReLU);
      ("fc2", MLinear fc2); ("relu2", MReLU); ("logits", MLinear logits)] x) as Hz.
  { intros x. apply forward_zero_grad. }
  split_and!; [exact Hraise | |].
  - intros Hne. unfold loop_forward.
    rewrite (flatten_images_Ok _ _ _ _ Himg), bind_Ok_l, Hz.
    destruct (Hraise (resize_ uninit images [b0; 784]) 784) as [w Hw]; [done..|].
    eauto.
  - intros Heq. unfold loop_forward.
    rewrite (flatten_images_Ok _ _ _ _ Himg), bind_Ok_l, Hz.
    destruct (forward_layers_shape fc1 fc2 logits
                (resize_ uninit images [b0; 784]) [b0]) as (y & Hy & Hs).
    { by rewrite Hfc1, Hfc2. } { by rewrite Hfc2, Hlog. }
    { simpl. by rewrite Hin, Heq. }
    exists y. split; [exact Hy|]. by rewrite Hs, Hlog.
Qed.

(** ** The training loop: gradients *)

Lemma named_parameters_map (f : string → Param R → Param R) m :
  named_parameters (map_parameters f m)
  = (λ np, (np.1, f np.1 np.2)) <$> named_parameters m.
Proof.
  unfold named_parameters, map_parameters.
  induction m as [|[name md] m IH]; [done|].
  rewrite fmap_cons, !bind_cons, fmap_app, IH. f_equal.
  by destruct md.
Qed.







Section Training.
Variable criterion : Tensor R → list Z → result R.
Variable autograd : list (string * Tensor R) → Tensor R → list Z → string → Tensor R.
Variable uninit : nat → R.
Variable opt : SGD R.
Variables epochs_ print_every_ : nat.

Lemma forward_backward_step_Ok m images (labels : list Z) (m' : Sequential R) (loss : R) :
  forward_backward_step criterion autograd opt m images labels = Ok (m', loss) →
  m' = sgd_step opt (backward autograd images labels m).
Proof. unfold forward_backward_step. intros Hs. inv_result. congruence. Qed.

Lemma train_batch_Ok m (batch : Tensor R * list Z) (m' : Sequential R) (loss : R) :
  train_batch criterion autograd uninit opt m batch = Ok (m', loss) →
  ∃ images, flatten_images uninit batch.1 = Ok images
    ∧ m' = sgd_step opt (backward autograd images batch.2 (zero_grad opt m)).
Proof.
  unfold train_batch. intros Hs. inv_result.
  apply forward_backward_step_Ok in Hs. eauto.
Qed.


Lemma loop_body_model (e : nat) (st st' : LoopState R) (batch : Tensor R * list Z) :
  loop_body criterion autograd uninit opt epochs_ print_every_ e st batch = Ok st' →
  ∃ loss, train_batch criterion autograd uninit opt (model st) batch = Ok (model st', loss).
Proof.
  unfold loop_body. intros Hb. inv_result. destruct a as [m1 loss].
  exists loss. repeat case_decide; inv_result; by subst st'.
Qed.



(** ** The training loop: the periodic report *)

Lemma for_each_app {A St} (f : St → A → result St) (l1 l2 : list A) (st : St) :
  for_each f st (l1 ++ l2) = for_each f st l1 ≫= λ st', for_each f st' l2.
Proof.
  revert st. induction l1 as [|a l1 IH]; intros st; simpl; [done|].
  destruct (f st a); simpl; auto.
Qed.

Lemma loop_body_Ok (e : nat) (st st' : LoopState R) (batch : Tensor R * list Z) :
  loop_body criterion autograd uninit opt epochs_ print_every_ e st batch = Ok st' →
  ∃ m1 loss,
    train_batch criterion autograd uninit opt (model st) batch = Ok (m1, loss)
    ∧ print_every_ ≠ 0
    ∧ st' = (if decide ((steps st + 1) mod print_every_ = 0)
             then mkLoop m1 (steps st + 1) r0
                    (stdout st ++ [mkReport (e + 1) epochs_
                       (rdiv_int (radd (running_loss st) loss) (Z.of_nat print_every_))])
             else mkLoop m1 (steps st + 1) (radd (running_loss st) loss) (stdout st)).
Proof.
  unfold loop_body. intros Hb. inv_result. destruct a as [m1 loss].
  exists m1, loss. simpl in Hb.
  destruct (decide (print_every_ = 0)); [done|].
  split_and!; [done..|]. case_decide; by inv_result.
Qed.

Lemma inner_loop_steps (e : nat) (batches : list (Tensor R * list Z)) (st st' : LoopState R) :
  for_each (loop_body criterion autograd uninit opt epochs_ print_every_ e) st batches = Ok st' →
  steps st' = steps st + length batches.
Proof.
  revert st. induction batches as [|b bs IH]; intros st Hrun; simpl in Hrun; inv_result.
  - subst. simpl. lia.
  - apply IH in Hrun. apply loop_body_Ok in Ha as (m1 & loss & _ & _ & ->).
    rewrite Hrun. case_decide; simpl; lia.
Qed.

Lemma inner_loop_stdout (e : nat) (batches : list (Tensor R * list Z)) (st st' : LoopState R) :
  for_each (loop_body criterion autograd uninit opt epochs_ print_every_ e) st batches = Ok st' →
  ∃ rest, stdout st' = stdout st ++ rest.
Proof.
  revert st. induction batches as [|b bs IH]; intros st Hrun; simpl in Hrun; inv_result.
  - subst. exists []. by rewrite app_nil_r.
  - apply IH in Hrun as [rest Hrest].
    apply loop_body_Ok in Ha as (m1 & loss & _ & _ & ->).
    rewrite Hrest. case_decide; simpl; [|eauto].
    rewrite <- app_assoc. eauto.
Qed.

Lemma inner_loop_losses (e : nat) (batches : list (Tensor R * list Z)) (st st' : LoopState R) :
  for_each (loop_body criterion autograd uninit opt epochs_ print_every_ e) st batches = Ok st' →
  length (loss_items criterion autograd uninit opt (model st) batches) = length batches.
Proof.
  revert st. induction batches as [|b bs IH]; intros st Hrun; simpl in Hrun; inv_result; [done|].
  apply IH in Hrun. apply loop_body_Ok in Ha as (m1 & loss & Htb & _ & ->).
  simpl. rewrite Htb. simpl. f_equal. rewrite <- Hrun. by case_decide.
Qed.

(** With [k] steps to go to the next multiple of [print_every], the next
    line printed divides by [print_every] the running loss plus the
    losses of these [k] batches. *)
Lemma next_report (e : nat) (batches : list (Tensor R * list Z)) :
  ∀ (k : nat) (st st' : LoopState R),
    (∀ j, 1 ≤ j < k → (steps st + j) mod print_every_ ≠ 0) →
    (steps st + k) mod print_every_ = 0 →
    1 ≤ k ≤ length batches →
    for_each (loop_body criterion autograd uninit opt epochs_ print_every_ e) st batches = Ok st' →
    ∃ rest,
      stdout st' = stdout st ++
        mkReport (e + 1) epochs_
          (rdiv_int (foldl radd (running_loss st) (take k (loss_items criterion autograd uninit opt (model st) batches)))
             (Z.of_nat print_every_)) :: rest.
Proof.
  induction batches as [|b bs IH]; intros k st st' Hno Hk Hlen Hrun; simpl in Hlen; [lia|].
  simpl in Hrun. inv_result.
  apply loop_body_Ok in Ha as (m1 & loss & Htb & Hpe & ->).
  simpl. rewrite Htb. simpl.
  destruct k as [|[|k]]; [lia| |].
  - rewrite decide_True in Hrun by done.
    apply inner_loop_stdout in Hrun as [rest Hrest]. simpl in Hrest.
    exists rest. rewrite Hrest, <- app_assoc. done.
  - rewrite decide_False in Hrun by (apply Hno; lia).
    apply (IH (S k)) in Hrun; simpl in *.
    + done.
    + intros j Hj. replace (steps st + 1 + j) with (steps st + (j + 1)) by lia.
      apply Hno. lia.
    + by replace (steps st + 1 + S k) with (steps st + S (S k)) by lia.
    + lia.
Qed.

Lemma steps_to_next_report (s pe : nat) :
  pe ≠ 0 →
  let k := pe - s mod pe in
  1 ≤ k ≤ pe
  ∧ (s + k) mod pe = 0
  ∧ (∀ j, 1 ≤ j < k → (s + j) mod pe ≠ 0)
  ∧ (k < pe ↔ s mod pe ≠ 0).
Proof.
  intros Hpe k.
  pose proof (Nat.mod_upper_bound s pe Hpe) as Hr.
  pose proof (Nat.div_mod_eq s pe) as Hs.
  split_and!; [lia | lia | | | lia].
  - replace (s + k) with ((s / pe + 1) * pe) by lia.
    apply Nat.Div0.mod_mul.
  - intros j Hj.
    assert (s mod pe + j = (s + j) mod pe) as <-; [|lia].
    apply (Nat.mod_unique _ _ (s / pe)); lia.
Qed.

(** The first line an epoch prints, for an epoch that starts after [s0]
    steps: [running_loss] was reset when the epoch began, [steps] was
    not. *)
Lemma first_report_of_epoch (trainloader : nat → list (Tensor R * list Z))
    (e : nat) (st st' : LoopState R) :
  let k := print_every_ - steps st mod print_every_ in
  print_every_ ≠ 0 →
  k ≤ length (trainloader e) →
  run_epoch criterion autograd uninit opt epochs_ print_every_ trainloader st e = Ok st' →
  ∃ rest,
    stdout st' = stdout st ++
      mkReport (e + 1) epochs_
        (rdiv_int (sum_losses (take k (loss_items criterion autograd uninit opt (model st) (trainloader e))))
           (Z.of_nat print_every_)) :: rest.
Proof.
  intros k Hpe Hk Hrun. unfold run_epoch in Hrun.
  destruct (steps_to_next_report (steps st) print_every_ Hpe) as (Hk1 & Hmod & Hno & _).
  apply (next_report e _ k) in Hrun; simpl in *; [done..|lia].
Qed.

Lemma run_epoch_steps (trainloader : nat → list (Tensor R * list Z))
    (e : nat) (st st' : LoopState R) :
  run_epoch criterion autograd uninit opt epochs_ print_every_ trainloader st e = Ok st' →
  steps st' = steps st + length (trainloader e).
Proof. unfold run_epoch. intros Hrun. by apply inner_loop_steps in Hrun. Qed.

(** After [n] epochs of [N] batches each, [steps] is [n * N]. *)
Lemma run_epochs_steps (trainloader : nat → list (Tensor R * list Z))
    (N : nat) (m : Sequential R) (n : nat) (st : LoopState R) :
  (∀ e, length (trainloader e) = N) →
  run_epochs criterion autograd uninit opt epochs_ print_every_ trainloader m n = Ok st →
  steps st = n * N.
Proof.
  intros HN. unfold run_epochs. revert st.
  induction n as [|n IH]; intros st Hrun.
  - simpl in Hrun. inv_result. by subst.
  - rewrite seq_S, for_each_app in Hrun. inv_result.
    simpl in Hrun. inv_result. subst.
    apply run_epoch_steps in Ha0. rewrite Ha0, (IH _ Ha), HN. lia.
Qed.


End Training.


End Properties.

(** ** Parameter names *)

Lemma list_ascii_of_string_app (s1 s2 : string) :
  String.list_ascii_of_string (s1 +:+ s2) = String.list_ascii_of_string s1 ++ String.list_ascii_of_string s2.
Proof. induction s1 as [|c s1 IH]; simpl; [done|]. by rewrite IH. Qed.

Lemma list_ascii_of_string_inj (s1 s2 : string) :
  String.list_ascii_of_string s1 = String.list_ascii_of_string s2 → s1 = s2.
Proof.
  intros Heq. rewrite <- (String.string_of_list_ascii_of_string s1),
    <- (String.string_of_list_ascii_of_string s2). by rewrite Heq.
Qed.

Lemma string_app_inj_r (s1 s2 t : string) : s1 +:+ t = s2 +:+ t → s1 = s2.
Proof.
  intros Heq. apply list_ascii_of_string_inj.
  apply (f_equal String.list_ascii_of_string) in Heq.
  rewrite !list_ascii_of_string_app in Heq. by apply app_inv_tail in Heq.
Qed.

Lemma weight_ne_bias (s1 s2 : string) : s1 +:+ ".weight" ≠ s2 +:+ ".bias".
Proof.
  intros Heq. apply (f_equal String.list_ascii_of_string) in Heq.
  rewrite !list_ascii_of_string_app in Heq.
  apply (f_equal reverse) in Heq. rewrite !reverse_app in Heq.
  discriminate Heq.
Qed.

Lemma hidden_name_inj (j k : nat) : hidden_name j = hidden_name k → j = k.
Proof.
  unfold hidden_name. intros Heq. apply (inj _) in Heq. by apply (inj pretty) in Heq.
Qed.

Lemma hidden_name_ne_output (k : nat) (s1 s2 : string) :
  hidden_name k +:+ s1 ≠ "output" +:+ s2.
Proof. unfold hidden_name. simpl. discriminate. Qed.

Lemma param_key_inj (s1 s2 : string) (f1 f2 : tensor_field) :
  s1 +:+ field_suffix f1 = s2 +:+ field_suffix f2 → s1 = s2 ∧ f1 = f2.
Proof.
  destruct f1, f2; simpl; intros Heq.
  - by apply string_app_inj_r in Heq.
  - by apply weight_ne_bias in Heq.
  - symmetry in Heq. by apply weight_ne_bias in Heq.
  - by apply string_app_inj_r in Heq.
Qed.

(** ** State dicts *)

Section StateDict.
Context {R : Type} {SR : Scalar R}.
Implicit Types (l : Linear R) (ls : list (Linear R)) (net : Network R)
  (ps : list (string * Param R)) (sd : list (string * Tensor R)).

Lemma linear_parameters_fields (name : string) l :
  linear_parameters name l
  = [(name +:+ field_suffix Weight, field_param Weight l);
     (name +:+ field_suffix Bias, field_param Bias l)].
Proof. done. Qed.

Lemma state_dict_of_keys ps : (state_dict_of ps).*1 = ps.*1.
Proof.
  unfold state_dict_of. rewrite <- list_fmap_compose. by apply list_fmap_ext.
Qed.

Lemma elem_of_hidden_parameters (k : nat) ls (key : string) (p : Param R) :
  (key, p) ∈ hidden_parameters k ls ↔
  ∃ j l f, ls !! j = Some l ∧ key = hidden_name (k + j) +:+ field_suffix f
           ∧ p = field_param f l.
Proof.
  revert k. induction ls as [|l0 ls IH]; intros k; simpl.
  - split; [by intros ?%elem_of_nil | by intros (j & l & f & ? & _)].
  - rewrite !elem_of_cons, IH. split.
    + intros [Heq|[Heq|(j & l & f & Hj & -> & ->)]].
      * exists 0, l0, Weight. rewrite Nat.add_0_r. by simplify_eq.
      * exists 0, l0, Bias. rewrite Nat.add_0_r. by simplify_eq.
      * exists (S j), l, f. by rewrite Nat.add_succ_r.
    + intros ([|j] & l & f & Hj & -> & ->); simpl in Hj.
      * simplify_eq. rewrite Nat.add_0_r. destruct f; auto.
      * right; right. exists j, l, f. by rewrite Nat.add_succ_r.
Qed.

Lemma elem_of_hidden_keys (k : nat) ls (key : string) :
  key ∈ (hidden_parameters k ls).*1 ↔
  ∃ j f, j < length ls ∧ key = hidden_name (k + j) +:+ field_suffix f.
Proof.
  rewrite list_elem_of_fmap. split.
  - intros ([key' p] & -> & (j & l & f & Hj & -> & _)%elem_of_hidden_parameters).
    exists j, f. split; [by eapply lookup_lt_Some|done].
  - intros (j & f & Hj & ->).
    destruct (lookup_lt_is_Some_2 ls j Hj) as [l Hl].
    exists (hidden_name (k + j) +:+ field_suffix f, field_param f l).
    split; [done|]. apply elem_of_hidden_parameters. by exists j, l, f.
Qed.

Lemma hidden_keys_length (k : nat) ls (ls' : list (Linear R)) :
  length ls = length ls' →
  (hidden_parameters k ls).*1 = (hidden_parameters k ls').*1.
Proof.
  revert k ls'. induction ls as [|l ls IH]; intros k [|l' ls'] Hlen;
    simpl in *; try done.
  do 2 f_equal. apply IH. lia.
Qed.

(** Looking a name up in the state dict of a stack of hidden layers
    followed by [rest]. *)
Lemma lookup_hidden (rest : list (string * Param R)) ls :
  ∀ (k j : nat) l (f : tensor_field),
    ls !! j = Some l →
    (list_to_map (state_dict_of (hidden_parameters k ls ++ rest)) : gmap string (Tensor R))
      !! (hidden_name (k + j) +:+ field_suffix f)
    = Some (data (field_param f l)).
Proof.
  induction ls as [|l0 ls IH]; intros k j l f Hj; [done|].
  simpl. destruct j as [|j]; simpl in Hj.
  - simplify_eq. rewrite Nat.add_0_r. destruct f; simpl.
    + by rewrite lookup_insert_eq.
    + rewrite lookup_insert_ne by apply weight_ne_bias.
      by rewrite lookup_insert_eq.
  - rewrite !lookup_insert_ne.
    + rewrite Nat.add_succ_r. by apply (IH (S k)).
    + intros [Heq _]%(param_key_inj _ _ Bias f). apply hidden_name_inj in Heq. lia.
    + intros [Heq _]%(param_key_inj _ _ Weight f). apply hidden_name_inj in Heq. lia.
Qed.

Lemma lookup_hidden_ge (rest : list (string * Param R)) ls :
  ∀ (k j : nat) (f : tensor_field),
    k + length ls ≤ j →
    (list_to_map (state_dict_of (hidden_parameters k ls ++ rest)) : gmap string (Tensor R))
      !! (hidden_name j +:+ field_suffix f)
    = (list_to_map (state_dict_of rest) : gmap string (Tensor R))
      !! (hidden_name j +:+ field_suffix f).
Proof.
  induction ls as [|l0 ls IH]; intros k j f Hj; [done|].
  simpl in *. rewrite !lookup_insert_ne.
  - apply (IH (S k)). lia.
  - intros [Heq _]%(param_key_inj _ _ Bias f). apply hidden_name_inj in Heq. lia.
  - intros [Heq _]%(param_key_inj _ _ Weight f). apply hidden_name_inj in Heq. lia.
Qed.

Lemma lookup_past_hidden (rest : list (string * Param R)) ls (k : nat) (s : string) :
  (list_to_map (state_dict_of (hidden_parameters k ls ++ rest)) : gmap string (Tensor R))
    !! ("output" +:+ s)
  = (list_to_map (state_dict_of rest) : gmap string (Tensor R)) !! ("output" +:+ s).
Proof.
  revert k. induction ls as [|l0 ls IH]; intros k; [done|].
  simpl. rewrite !lookup_insert_ne by apply hidden_name_ne_output. apply IH.
Qed.

Lemma lookup_state_dict_hidden net (j : nat) l (f : tensor_field) :
  hidden_layers net !! j = Some l →
  (list_to_map (state_dict net) : gmap string (Tensor R))
    !! (hidden_name j +:+ field_suffix f)
  = Some (data (field_param f l)).
Proof. intros Hj. by apply (lookup_hidden _ _ 0 j). Qed.

Lemma lookup_state_dict_output net (f : tensor_field) :
  (list_to_map (state_dict net) : gmap string (Tensor R))
    !! ("output" +:+ field_suffix f)
  = Some (data (field_param f (output net))).
Proof.
  unfold state_dict, Network_parameters. rewrite lookup_past_hidden.
  destruct f; simpl.
  - by rewrite lookup_insert_eq.
  - rewrite lookup_insert_ne by apply (weight_ne_bias "output" "output").
    by rewrite lookup_insert_eq.
Qed.

Lemma lookup_state_dict_none net (j : nat) (f : tensor_field) :
  length (hidden_layers net) ≤ j →
  (list_to_map (state_dict net) : gmap string (Tensor R))
    !! (hidden_name j +:+ field_suffix f) = None.
Proof.
  intros Hj. unfold state_dict, Network_parameters.
  rewrite lookup_hidden_ge by (simpl; lia). simpl.
  rewrite !lookup_insert_ne; [done|..].
  - intros Heq. symmetry in Heq. by apply hidden_name_ne_output in Heq.
  - intros Heq. symmetry in Heq. by apply hidden_name_ne_output in Heq.
Qed.

(** ** Constructed networks *)

Lemma build_hidden_Ok (init : string → nat → R) (hs : list Z) :
  ∀ (k : nat) (inf : Z),
    (0 < inf)%Z → Forall (λ h, 0 < h)%Z hs →
    ∃ ls, build_hidden init k inf hs = Ok ls
      ∧ out_features <$> ls = Z.to_nat <$> hs
      ∧ chained (Z.to_nat inf) ls
      ∧ Forall (λ l, 0 < out_features l ∧ linear_wf l
                     ∧ grad (weight l) = None ∧ grad (bias l) = None) ls.
Proof.
  induction hs as [|h hs IH]; intros k inf Hinf Hpos; simpl.
  - exists []. by split_and!.
  - apply Forall_cons in Hpos as [Hh Hpos].
    rewrite nn_Linear_Ok by lia. simpl.
    destruct (IH (S k) h Hh Hpos) as (ls & -> & Hout & Hch & Hall). simpl.
    eexists. split; [done|]. split_and!.
    + rewrite !fmap_cons. by rewrite Hout.
    + done.
    + apply Forall_cons. split; [|done]. simpl. split_and!; try done. lia.
Qed.

Lemma last_cons_default {A} (l : list A) (a d : A) :
  List.last (a :: l) d = List.last l a.
Proof.
  revert a d. induction l as [|b l IH]; intros a d; [done|].
  change (List.last (a :: b :: l) d) with (List.last (b :: l) d).
  by rewrite (IH b d), (IH b a).
Qed.

Lemma last_fmap_default {A B} (f : A → B) (l : list A) (d : A) :
  List.last (f <$> l) (f d) = f (List.last l d).
Proof.
  induction l as [|a l IH]; [done|]. destruct l as [|b l]; [done|].
  exact IH.
Qed.

Lemma fc_model_Network_Ok (init : string → nat → R) (i o : Z) (hs : list Z)
    (p : option Q) :
  valid_config i o hs = true →
  ∃ net, fc_model_Network init i o hs p = Ok net
    ∧ Network_wf (Z.to_nat i) (Z.to_nat o) net
    ∧ hidden_widths net = Z.to_nat <$> hs
    ∧ Forall (λ l, grad (weight l) = None ∧ grad (bias l) = None)
        (output net :: hidden_layers net)
    ∧ dropout net = default (1 # 2)%Q p
    ∧ training net = true.
Proof.
  intros Hv. unfold fc_model_Network. rewrite Hv.
  apply valid_config_inv in Hv as (Hi & Ho & Hh).
  destruct (build_hidden_Ok init hs 0 i Hi Hh) as (ls & -> & Hout & Hch & Hall).
  simpl. rewrite nn_Linear_Ok.
  - simpl. eexists. split; [done|]. unfold Network_wf, hidden_widths. simpl.
    split_and!; try done; try lia.
    + eapply Forall_impl; [exact Hall|]. simpl. intros ? ?. tauto.
    + by rewrite Hout, last_fmap_default.
    + apply Forall_cons. split; [done|].
      eapply Forall_impl; [exact Hall|]. simpl. intros ? ?. tauto.
  - clear -Hi Hh. revert i Hi. induction Hh as [|h hs Hh Hhs IH]; intros i Hi; [done|].
    destruct hs as [|h' hs]; [exact Hh|]. exact (IH i Hi).
  - lia.
Qed.

Lemma fc_model_Network_inv (init : string → nat → R) (i o : Z) (hs : list Z)
    (p : option Q) net :
  fc_model_Network init i o hs p = Ok net →
  valid_config i o hs = true
  ∧ Network_wf (Z.to_nat i) (Z.to_nat o) net
  ∧ hidden_widths net = Z.to_nat <$> hs
  ∧ Forall (λ l, grad (weight l) = None ∧ grad (bias l) = None)
      (output net :: hidden_layers net)
  ∧ dropout net = default (1 # 2)%Q p
  ∧ training net = true.
Proof.
  intros Hnet. destruct (valid_config i o hs) eqn:Hv.
  - destruct (fc_model_Network_Ok init i o hs p Hv) as (net' & Hnet' & Hrest).
    rewrite Hnet in Hnet'. inv_result. by subst net'.
  - unfold fc_model_Network in Hnet. by rewrite Hv in Hnet.
Qed.

(** ** Loading into another architecture *)

Lemma filter_nonempty {A} (P : A → Prop) `{∀ a, Decision (P a)} (l : list A) (a : A) :
  a ∈ l → P a → filter P l ≠ [].
Proof.
  intros Hin HP Hnil.
  exact (filter_nil_not_elem_of P l a Hnil HP Hin).
Qed.



Lemma hidden_parameters_map (f : string → Param R → Param R) ls (k : nat) :
  hidden_parameters k (map_hidden f k ls)
  = (λ kp, (kp.1, f kp.1 kp.2)) <$> hidden_parameters k ls.
Proof.
  revert k. induction ls as [|l ls IH]; intros k; [done|].
  cbn [map_hidden hidden_parameters]. rewrite fmap_app, IH. done.
Qed.

Lemma Network_parameters_map (f : string → Param R → Param R) net :
  Network_parameters (Network_map_parameters f net)
  = (λ kp, (kp.1, f kp.1 kp.2)) <$> Network_parameters net.
Proof.
  unfold Network_parameters, Network_map_parameters. simpl.
  by rewrite fmap_app, hidden_parameters_map.
Qed.



(** ** Loading into the same architecture *)

Lemma build_hidden_same (init : string → nat → R) ls :
  ∀ (k inf : nat),
    0 < inf → chained inf ls →
    Forall (λ l, 0 < out_features l ∧ linear_wf l) ls →
    ∃ ls', build_hidden init k (Z.of_nat inf) ((λ l, Z.of_nat (out_features l)) <$> ls)
           = Ok ls'
      ∧ Forall2 same_layer ls ls'.
Proof.
  induction ls as [|l ls IH]; intros k inf Hinf Hch Hall.
  - by exists [].
  - destruct Hch as [Hin Hch]. apply Forall_cons in Hall as [[Hout Hwf] Hall].
    rewrite fmap_cons. cbn [build_hidden].
    rewrite nn_Linear_Ok, bind_Ok_l by lia.
    destruct (IH (S k) (out_features l) Hout Hch Hall) as (ls' & -> & Hsame).
    rewrite bind_Ok_l.
    eexists. split; [done|]. apply Forall2_cons. split; [|done].
    unfold same_layer. simpl. rewrite !Nat2Z.id. by split_and!.
Qed.

Lemma filter_nil_intro {A} (P : A → Prop) `{∀ a, Decision (P a)} (l : list A) :
  (∀ a, a ∈ l → ¬ P a) → filter P l = [].
Proof.
  intros Hl. destruct (filter P l) as [|a l'] eqn:Hf; [done|].
  assert (a ∈ filter P l) as [HP Hin]%list_elem_of_filter by (rewrite Hf; left).
  by apply Hl in Hin.
Qed.

Lemma bind_nil_intro {A B} (f : A → list B) (l : list A) :
  (∀ a, a ∈ l → f a = []) → l ≫= f = [].
Proof.
  intros Hl. destruct (l ≫= f) as [|b l'] eqn:Hb; [done|].
  assert (b ∈ l ≫= f) as (a & Hin & Ha)%list_elem_of_bind by (rewrite Hb; left).
  rewrite (Hl a Ha) in Hin. by apply elem_of_nil in Hin.
Qed.

Lemma load_param_same (sdm : gmap string (Tensor R)) (key : string) (f : tensor_field)
    (l l' : Linear R) :
  same_layer l l' →
  sdm !! key = Some (data (field_param f l)) →
  load_param sdm key (field_param f l') = mkParam (data (field_param f l)) None
  ∧ shape (data (field_param f l)) = shape (data (field_param f l')).
Proof.
  intros (Hin & Hout & [Hw Hb] & [Hw' Hb'] & Hgw & Hgb) Hkey.
  assert (shape (data (field_param f l)) = shape (data (field_param f l'))) as Hs.
  { destruct f; simpl; congruence. }
  split; [|done]. unfold load_param. rewrite Hkey, decide_True by done.
  destruct f; simpl; congruence.
Qed.

Lemma map_linear_load (sdm : gmap string (Tensor R)) (name : string) (l l' : Linear R) :
  same_layer l l' →
  (∀ f, sdm !! (name +:+ field_suffix f) = Some (data (field_param f l))) →
  map_linear (load_param sdm) name l' = detach l.
Proof.
  intros Hsame Hkeys. unfold map_linear, detach.
  destruct (load_param_same sdm _ Weight l l' Hsame (Hkeys Weight)) as [Hw _].
  destruct (load_param_same sdm _ Bias l l' Hsame (Hkeys Bias)) as [Hb _].
  simpl in Hw, Hb. rewrite Hw, Hb.
  destruct Hsame as (-> & -> & _). done.
Qed.

Lemma map_hidden_load (sdm : gmap string (Tensor R)) ls (ls' : list (Linear R)) :
  Forall2 same_layer ls ls' →
  ∀ k : nat,
    (∀ j l f, ls !! j = Some l →
       sdm !! (hidden_name (k + j) +:+ field_suffix f) = Some (data (field_param f l))) →
    map_hidden (load_param sdm) k ls' = detach <$> ls.
Proof.
  induction 1 as [|l l' ls ls' Hl Hls IH]; intros k Hkeys; [done|].
  rewrite fmap_cons. cbn [map_hidden]. f_equal.
  - apply map_linear_load; [done|]. intros f.
    specialize (Hkeys 0 l f eq_refl). by rewrite Nat.add_0_r in Hkeys.
  - apply IH. intros j l0 f Hj. specialize (Hkeys (S j) l0 f Hj).
    by rewrite Nat.add_succ_r in Hkeys.
Qed.

Lemma load_state_dict_same net (net' : Network R) :
  Forall2 same_layer (hidden_layers net) (hidden_layers net') →
  same_layer (output net) (output net') →
  load_state_dict net' (state_dict net)
  = Ok (mkNetwork (detach <$> hidden_layers net) (detach (output net))
          (dropout net') (training net')).
Proof.
  intros Hhid Hout.
  pose proof (Forall2_length _ _ _ Hhid) as Hlen.
  assert ((Network_parameters net').*1 = (state_dict net).*1) as Hkeys.
  { unfold state_dict. rewrite state_dict_of_keys. unfold Network_parameters.
    rewrite !fmap_app. f_equal. by apply hidden_keys_length. }
  assert (∀ key p', (key, p') ∈ Network_parameters net' →
            ∃ t, (list_to_map (state_dict net) : gmap string (Tensor R)) !! key = Some t
                 ∧ shape t = shape (data p')) as Hfound.
  { intros key p'. unfold Network_parameters. rewrite elem_of_app.
    intros [(j & l' & f & Hj & -> & ->)%elem_of_hidden_parameters|Hin].
    - destruct (Forall2_lookup_r _ _ _ _ _ Hhid Hj) as (l & Hl & Hsame).
      eexists. split; [by apply lookup_state_dict_hidden|].
      eapply load_param_same; [done|]. by apply (lookup_state_dict_hidden net j l f).
    - rewrite linear_parameters_fields, !elem_of_cons in Hin.
      destruct Hin as [Hin|[Hin|Hin%elem_of_nil]]; [..|done]; simplify_eq;
        (eexists; split; [apply lookup_state_dict_output|];
         eapply load_param_same; [done|]; apply lookup_state_dict_output). }
  unfold load_state_dict.
  assert (load_errors (Network_parameters net') (state_dict net) = []) as ->.
  { unfold load_errors, size_mismatches. cbv zeta.
    rewrite (filter_nil_intro (λ k, _ !! k = None)), (filter_nil_intro (λ k, k ∉ _)),
      bind_nil_intro; [done|..].
    - intros [key p'] Hin. cbn [fst snd].
      destruct (Hfound key p' Hin) as (t & -> & Hs). by rewrite decide_True.
    - intros key Hin Hnot. apply Hnot. by rewrite Hkeys.
    - intros key ([key' p'] & -> & Hin)%list_elem_of_fmap.
      destruct (Hfound key' p' Hin) as (t & Ht & _). simpl. by rewrite Ht. }
  f_equal. unfold load_state_dict_update, Network_map_parameters. f_equal.
  - apply map_hidden_load; [done|]. intros j l f Hj.
    by apply lookup_state_dict_hidden.
  - apply map_linear_load; [done|]. intros f. apply lookup_state_dict_output.
Qed.

(** ** Checkpoints *)

(** What is saved at a path is what loading that path gives. *)
Lemma torch_load_save (obj : Pickle R) (path : string) (fs : gmap string (Pickle R)) :
  torch_load path (torch_save obj path fs) = Ok obj.
Proof. unfold torch_load, torch_save. by rewrite lookup_insert_eq. Qed.

Lemma checkpoint_lookups net :
  checkpoint net !! "input_size" = Some (VInt 784)
  ∧ checkpoint net !! "output_size" = Some (VInt 10)
  ∧ checkpoint net !! "hidden_layers"
    = Some (VIntList ((λ each, Z.of_nat (out_features each)) <$> hidden_layers net))
  ∧ checkpoint net !! "state_dict" = Some (VStateDict (state_dict net)).
Proof. unfold checkpoint. split_and!; by simplify_map_eq. Qed.

(** What [load_checkpoint] does with a file the checkpoint cell wrote. *)
Lemma load_saved_checkpoint (init : string → nat → R) net (path : string)
    (fs : gmap string (Pickle R)) :
  load_checkpoint init path (save_checkpoint net path fs)
  = (model ← fc_model_Network init 784 10
               ((λ each, Z.of_nat (out_features each)) <$> hidden_layers net) None;
     load_state_dict model (state_dict net)).
Proof.
  unfold load_checkpoint, save_checkpoint.
  rewrite torch_load_save, bind_Ok_l. unfold getitem.
  destruct (checkpoint_lookups net) as (-> & -> & -> & ->).
  rewrite !bind_Ok_l. unfold as_int, as_int_list. rewrite !bind_Ok_l.
  destruct (fc_model_Network _ _ _ _ _); [|done].
  by rewrite !bind_Ok_l.
Qed.

Lemma load_state_dict_dropout net (net' : Network R) sd :
  load_state_dict net sd = Ok net' →
  dropout net' = dropout net ∧ training net' = training net.
Proof.
  unfold load_state_dict. destruct (load_errors _ _); [|done].
  intros Hl. inv_result. by subst net'.
Qed.

Lemma last_widths_pos net (d : nat) :
  Forall (λ l, 0 < out_features l) (hidden_layers net) → 0 < d →
  0 < List.last (hidden_widths net) d.
Proof.
  unfold hidden_widths. intros Hall Hd.
  induction Hall as [|l ls Hl Hls IH]; [done|].
  destruct ls as [|l' ls]; [exact Hl|]. exact IH.
Qed.

Lemma load_wf_checkpoint (init : string → nat → R) net (path : string)
    (fs : gmap string (Pickle R)) :
  Network_wf 784 10 net →
  load_checkpoint init path (save_checkpoint net path fs)
  = Ok (mkNetwork (detach <$> hidden_layers net) (detach (output net)) (1 # 2)%Q true).
Proof.
  intros (Hi & Ho & Hall & Hch & Hin & Hout & Hwf).
  rewrite load_saved_checkpoint. unfold fc_model_Network.
  assert (valid_config 784 10 ((λ each, Z.of_nat (out_features each)) <$> hidden_layers net)
          = true) as ->.
  { unfold valid_config. simpl. apply forallb_forall. intros h Hh.
    apply list_elem_of_In, list_elem_of_fmap in Hh as (l & -> & Hl).
    rewrite Forall_forall in Hall. apply Hall in Hl as [Hl _].
    apply bool_decide_eq_true. lia. }
  destruct (build_hidden_same init (hidden_layers net) 0 784 Hi Hch Hall)
    as (ls' & Hls' & Hsame).
  change 784%Z with (Z.of_nat 784). rewrite Hls', bind_Ok_l.
  rewrite nn_Linear_Ok, bind_Ok_l.
  - rewrite bind_Ok_l. rewrite load_state_dict_same; [done|done|].
    unfold same_layer. simpl.
    replace (List.last ((λ each, Z.of_nat (out_features each)) <$> hidden_layers net)
               (Z.of_nat 784))
      with (Z.of_nat (List.last (hidden_widths net) 784)).
    + rewrite Nat2Z.id. by split_and!.
    + unfold hidden_widths. rewrite <- (last_fmap_default Z.of_nat).
      by rewrite <- list_fmap_compose.
  - replace (List.last ((λ each, Z.of_nat (out_features each)) <$> hidden_layers net)
               (Z.of_nat 784))
      with (Z.of_nat (List.last (hidden_widths net) 784)).
    + assert (0 < List.last (hidden_widths net) 784); [|lia].
      apply last_widths_pos; [|lia].
      eapply Forall_impl; [exact Hall|]. simpl. intros ? ?. tauto.
    + unfold hidden_widths. rewrite <- (last_fmap_default Z.of_nat).
      by rewrite <- list_fmap_compose.
  - lia.
Qed.

Lemma linear_forward_detach l (x : Tensor R) :
  linear_forward (detach l) x = linear_forward l x.
Proof. done. Qed.

Lemma hidden_forward_detach (F_dropout : Q → Tensor R → Tensor R) (p p' : Q) ls :
  ∀ x : Tensor R,
    hidden_forward F_dropout false p (detach <$> ls) x
    = hidden_forward F_dropout false p' ls x.
Proof.
  induction ls as [|l ls IH]; intros x; [done|].
  rewrite fmap_cons. cbn [hidden_forward]. rewrite linear_forward_detach.
  destruct (linear_forward l x) as [y|]; [|done].
  rewrite !bind_Ok_l. apply IH.
Qed.

Lemma state_dict_detach (k : nat) ls :
  state_dict_of (hidden_parameters k (detach <$> ls))
  = state_dict_of (hidden_parameters k ls).
Proof.
  revert k. induction ls as [|l ls IH]; intros k; [done|].
  rewrite fmap_cons. cbn [hidden_parameters]. unfold state_dict_of in *.
  rewrite !fmap_app, IH. done.
Qed.

(** The configurable classifier of [fc_model] gives an output of
    [output_size] scores for every valid configuration, whatever the
    number of hidden layers. *)
Lemma hidden_forward_shape (F_dropout : Q → Tensor R → Tensor R) (train : bool)
    (p : Q) (batch : list nat) ls :
  (∀ q t, shape (F_dropout q t) = shape t) →
  ∀ (inf : nat) (x : Tensor R),
    chained inf ls → shape x = batch ++ [inf] →
    ∃ y, hidden_forward F_dropout train p ls x = Ok y
         ∧ shape y = batch ++ [List.last (out_features <$> ls) inf].
Proof.
  intros HF. induction ls as [|l ls IH]; intros inf x Hch Hx.
  - exists x. by split.
  - destruct Hch as [Hin Hch]. cbn [hidden_forward].
    destruct (linear_forward_shape l x batch) as (y & -> & Hy); [by rewrite Hin|].
    rewrite bind_Ok_l.
    destruct (IH (out_features l) (if train then F_dropout p (relu y) else relu y) Hch)
      as (z & Hz & Hs).
    { destruct train; [rewrite HF|]; done. }
    exists z. split; [done|]. by rewrite Hs, fmap_cons, last_cons_default.
Qed.

Lemma Network_forward_shape (init : string → nat → R)
    (F_dropout : Q → Tensor R → Tensor R) (i o : Z) (hs : list Z) (p : option Q)
    (batch : list nat) (x : Tensor R) :
  (∀ q t, shape (F_dropout q t) = shape t) →
  valid_config i o hs = true →
  shape x = batch ++ [Z.to_nat i] →
  ∃ net y, fc_model_Network init i o hs p = Ok net
           ∧ Network_forward F_dropout net x = Ok y
           ∧ shape y = batch ++ [Z.to_nat o].
Proof.
  intros HF Hv Hx.
  destruct (fc_model_Network_Ok init i o hs p Hv)
    as (net & Hnet & (_ & _ & _ & Hch & Hin & Hout & _) & _).
  destruct (hidden_forward_shape F_dropout (training net) (dropout net) batch
              (hidden_layers net) HF (Z.to_nat i) x Hch Hx) as (y & Hy & Hs).
  destruct (linear_forward_shape (output net) y batch) as (z & Hz & Hsz).
  { by rewrite Hs, Hin. }
  exists net, z. split; [done|]. unfold Network_forward.
  rewrite Hy, bind_Ok_l. split; [done|]. by rewrite Hsz, Hout.
Qed.

(** C3.  For every valid configuration (input size, output size, hidden
    sizes; the list of hidden sizes may be empty) and every batch of shape
    (batch_size, input_size), the classifier is constructed and its
    forward pass returns a tensor of shape (batch_size, output_size): so
    for the configurable classifier [fc_model.Network], in training mode
    as constructed (dropout keeps the shape), and so for the model cell of
    Part 3, whose architecture has the two hidden layers it reads the
    sizes of, for every valid configuration that gives it the two. *)
Theorem forward_output_shape (init : string → nat → R)
    (F_dropout : Q → Tensor R → Tensor R) (i o : Z) (hs : list Z) (p : option Q)
    (batch_size : nat) (x : Tensor R) :
  (∀ q t, shape (F_dropout q t) = shape t) →
  valid_config i o hs = true →
  shape x = [batch_size; Z.to_nat i] →
  (∃ net y, fc_model_Network init i o hs p = Ok net
            ∧ Network_forward F_dropout net x = Ok y
            ∧ shape y = [batch_size; Z.to_nat o])
  ∧ (2 ≤ length hs →
     ∃ m y, model_of init i hs o = Ok m
            ∧ forward m x = Ok y
            ∧ shape y = [batch_size; Z.to_nat o]).
Proof.
  intros HF Hv Hx. split.
  - by apply (Network_forward_shape init F_dropout i o hs p [batch_size] x).
  - intros Hlen. by apply model_cell_forward_shape.
Qed.

(** C1 (as amended).  Take any model with input size 784 and output size
    10, the two sizes the checkpoint cell writes down, with any parameter
    values.  Saving its checkpoint and loading the file back gives a
    model with the same parameter values, whose forward pass in
    evaluation mode returns on every input exactly what the original
    returns. *)
Theorem save_then_load_round_trip (init : string → nat → R)
    (F_dropout : Q → Tensor R → Tensor R) net (path : string)
    (fs : gmap string (Pickle R)) :
  Network_wf 784 10 net →
  ∃ net',
    load_checkpoint init path (save_checkpoint net path fs) = Ok net'
    ∧ state_dict net' = state_dict net
    ∧ ∀ x, Network_forward F_dropout (eval net') x
           = Network_forward F_dropout (eval net) x.
Proof.
  intros Hwf. eexists. split; [by apply load_wf_checkpoint|]. split.
  - unfold state_dict, Network_parameters, state_dict_of. simpl.
    rewrite !fmap_app. f_equal. apply state_dict_detach.
  - intros x. unfold Network_forward, eval. simpl.
    rewrite (hidden_forward_detach _ _ (dropout net)).
    by destruct (hidden_forward _ _ _ _ _).
Qed.

(** C7.  Constructing the classifier with a non-positive input or output
    dimension, or with a zero among the hidden sizes, raises the
    configuration error. *)
Theorem invalid_configuration_is_rejected (init : string → nat → R)
    (i o : Z) (hs : list Z) (p : option Q) :
  (i ≤ 0)%Z ∨ (o ≤ 0)%Z ∨ 0%Z ∈ hs →
  fc_model_Network init i o hs p = Raise ConfigurationError.
Proof.
  intros Hbad. unfold fc_model_Network.
  destruct (valid_config i o hs) eqn:Hv; [|done].
  apply valid_config_inv in Hv as (Hi & Ho & Hh).
  destruct Hbad as [?|[?|Hin]]; [lia..|].
  rewrite Forall_forall in Hh. apply Hh in Hin. lia.
Qed.

(** C8.  The checkpoint cell writes one file, at the path it is given,
    and leaves every other path alone.  The file holds a dictionary whose
    keys are exactly [input_size], [output_size], [hidden_layers] and
    [state_dict]: two integers, a list of integers, and the model's
    mapping from parameter names to tensors. *)
Theorem checkpoint_file_contents net (path : string) (fs : gmap string (Pickle R)) :
  save_checkpoint net path fs !! path = Some (PDict (checkpoint net))
  ∧ (∀ other, other ≠ path → save_checkpoint net path fs !! other = fs !! other)
  ∧ dom (checkpoint net)
    = ({["input_size"; "output_size"; "hidden_layers"; "state_dict"]} : gset string)
  ∧ (∃ n, checkpoint net !! "input_size" = Some (VInt n))
  ∧ (∃ n, checkpoint net !! "output_size" = Some (VInt n))
  ∧ (∃ widths, checkpoint net !! "hidden_layers" = Some (VIntList widths)
               ∧ widths = Z.of_nat <$> hidden_widths net)
  ∧ checkpoint net !! "state_dict" = Some (VStateDict (state_dict net)).
Proof.
  destruct (checkpoint_lookups net) as (Hi & Ho & Hh & Hs).
  unfold save_checkpoint, torch_save. split_and!.
  - apply lookup_insert_eq.
  - intros other Hne. by apply lookup_insert_ne.
  - unfold checkpoint. rewrite !dom_insert_L, dom_singleton_L. set_solver.
  - eauto.
  - eauto.
  - eexists. split; [exact Hh|]. unfold hidden_widths.
    by rewrite <- list_fmap_compose.
  - done.
Qed.

(** C9.  The checkpoint does not depend on the dropout probability of
    the model it is built from; [load_checkpoint] constructs the network
    from the three stored fields alone; and whenever it returns a model,
    that model has the constructor's default dropout probability, 0.5. *)
Theorem loaded_dropout_is_default (init : string → nat → R) net (path : string)
    (fs : gmap string (Pickle R)) (net' : Network R) :
  load_checkpoint init path (save_checkpoint net path fs) = Ok net' →
  dropout net' = (1 # 2)%Q
  ∧ (∀ p t, checkpoint (mkNetwork (hidden_layers net) (output net) p t) = checkpoint net)
  ∧ ∃ model,
      fc_model_Network init 784 10 (Z.of_nat <$> hidden_widths net) None = Ok model
      ∧ load_state_dict model (state_dict net) = Ok net'.
Proof.
  rewrite load_saved_checkpoint. intros Hload. inv_result.
  pose proof Ha as (_ & _ & _ & _ & Hp & _)%fc_model_Network_inv.
  apply load_state_dict_dropout in Hload as Hd. destruct Hd as [Hd _].
  split_and!.
  - by rewrite Hd, Hp.
  - done.
  - exists a. split; [|done]. unfold hidden_widths.
    by rewrite <- list_fmap_compose.
Qed.

End StateDict.

(** ** The report over exact arithmetic *)

Lemma Q_underreport (total : Q) (k pe : nat) :
  (0 < total)%Q → 0 < k < pe →
  (rdiv_int total (Z.of_nat pe) < rdiv_int total (Z.of_nat k))%Q.
Proof.
  intros Htot [Hk Hpe]. simpl. unfold Qdiv.
  apply Qmult_lt_l; [done|].
  assert (0 < inject_Z (Z.of_nat k))%Q as HK.
  { change 0%Q with (inject_Z 0). rewrite <- Zlt_Qlt. lia. }
  assert (inject_Z (Z.of_nat k) < inject_Z (Z.of_nat pe))%Q as HKP.
  { rewrite <- Zlt_Qlt. lia. }
  assert (0 < inject_Z (Z.of_nat pe))%Q as HP by (eapply Qlt_trans; eauto).
  exact (proj1 (Qinv_lt_contravar _ _ HK HP) HKP).
Qed.

(** C10 (as amended).  Every report divides the accumulated
    [running_loss] by the constant [print_every]; [running_loss] is reset
    when an epoch begins and [steps] is not.  With [N] batches in every
    epoch, take an epoch that begins when the number of steps taken,
    [e * N], is not a multiple of [print_every], and that is long enough
    to reach the next multiple.  The first line it prints sums the losses
    of only the [k = print_every - (e * N) mod print_every] batches since
    the epoch began, fewer than [print_every], and still divides by
    [print_every]: when that sum is positive the line shows less than the
    mean loss of those batches. *)
Theorem first_report_of_epoch_underreports
    (criterion : Tensor Q → list Z → result Q)
    (autograd : list (string * Tensor Q) → Tensor Q → list Z → string → Tensor Q)
    (uninit : nat → Q) (opt : SGD Q) (epochs_ print_every_ : nat)
    (trainloader : nat → list (Tensor Q * list Z))
    (m : Sequential Q) (N e : nat) (st_e st' : LoopState Q) :
  (∀ e', length (trainloader e') = N) →
  run_epochs criterion autograd uninit opt epochs_ print_every_ trainloader m e = Ok st_e →
  run_epoch criterion autograd uninit opt epochs_ print_every_ trainloader st_e e = Ok st' →
  (e * N) mod print_every_ ≠ 0 →
  print_every_ - (e * N) mod print_every_ ≤ N →
  let k := print_every_ - (e * N) mod print_every_ in
  let window :=
    take k (loss_items criterion autograd uninit opt (model st_e) (trainloader e)) in
  length window = k
  ∧ 0 < k < print_every_
  ∧ (∃ rest, stdout st' = stdout st_e ++
        mkReport (e + 1) epochs_
          (rdiv_int (sum_losses window) (Z.of_nat print_every_)) :: rest)
  ∧ ((0 < sum_losses window)%Q →
     (rdiv_int (sum_losses window) (Z.of_nat print_every_)
      < rdiv_int (sum_losses window) (Z.of_nat k))%Q).
Proof.
  intros HN Hprev Hrun Hmod Hlong k window.
  assert (print_every_ ≠ 0) as Hpe.
  { intros ->. simpl in Hmod. unfold run_epoch in Hrun.
    destruct (trainloader e) as [|b bs] eqn:Hl.
    - specialize (HN e). rewrite Hl in HN. simpl in HN. subst N. lia.
    - simpl in Hrun. inv_result. by apply loop_body_Ok in Ha as (? & ? & _ & ? & _). }
  pose proof (run_epochs_steps _ _ _ _ _ _ _ _ _ _ _ HN Hprev) as Hsteps.
  destruct (steps_to_next_report (e * N) print_every_ Hpe) as (Hk1 & _ & _ & Hlt).
  assert (length window = k) as Hwin.
  { unfold window. rewrite length_take.
    unfold run_epoch in Hrun. apply inner_loop_losses in Hrun. simpl in Hrun.
    rewrite Hrun, HN. unfold k. lia. }
  assert (0 < k < print_every_) as Hk by (unfold k; lia).
  split_and!; [done | lia | lia | |].
  - pose proof (first_report_of_epoch criterion autograd uninit opt epochs_ print_every_
                  trainloader e st_e st') as Hfirst.
    rewrite Hsteps in Hfirst. apply Hfirst; [done | by rewrite HN | done].
  - intros Hpos. by apply Q_underreport.
Qed.

(** * Runs on the sample inputs *)

(** ** Part 3 *)

Lemma sample_model_built : model_of sample_init 784 [3; 2]%Z 2 = Ok sample_model.
Proof. vm_compute. reflexivity. Qed.

Lemma forward_output_shape_witness :
  valid_config 784 2 [3; 2]%Z = true
  ∧ (∃ net y, fc_model_Network sample_init 784 2 [3; 2]%Z None = Ok net
              ∧ Network_forward (λ _ t, t) net (mkTensor [5; 784] (replicate 3920 1%Z))
                = Ok y
              ∧ shape y = [5; Z.to_nat 2])
  ∧ (2 ≤ length [3; 2]%Z →
     ∃ m y, model_of sample_init 784 [3; 2]%Z 2 = Ok m
            ∧ forward m (mkTensor [5; 784] (replicate 3920 1%Z)) = Ok y
            ∧ shape y = [5; Z.to_nat 2]).
Proof.
  split; [reflexivity|].
  apply (forward_output_shape sample_init (λ _ t, t) 784 2 [3; 2]%Z None 5
           (mkTensor [5; 784] (replicate 3920 1%Z))).
  - reflexivity.
  - reflexivity.
  - reflexivity.
Defined.

(** A configuration with one hidden layer: the configurable classifier
    takes it. *)
Lemma sample_one_hidden_layer :
  ∃ net y, fc_model_Network sample_init 4 2 [3]%Z None = Ok net
           ∧ Network_forward (λ _ t, t) net (mkTensor [2; 4] (replicate 8 1%Z)) = Ok y
           ∧ shape y = [2; 2].
Proof. eexists _, _. split_and!; vm_compute; reflexivity. Qed.

Lemma logits_are_raw_scores_witness :
  ∃ body logits,
    sample_model = body ++ [("logits", MLinear logits)]
    ∧ out_features logits = 2
    ∧ (∀ x, forward sample_model x = forward body x ≫= linear_forward logits)
    ∧ (∀ x y, forward sample_model x = Ok y → last (shape y) = Some 2).
Proof.
  apply (logits_are_raw_scores sample_init 784 2 [3; 2]%Z sample_model).
  vm_compute. reflexivity.
Defined.

(** The scores of the sample model on a batch: some are negative, and
    they do not sum to one. *)
Lemma sample_scores_are_raw :
  forward sample_model (mkTensor [1; 784] (replicate 784 1%Z))
  = Ok (mkTensor [1; 2] [1; -2]%Z).
Proof. vm_compute. reflexivity. Qed.

(** A batch with 9 values per example goes through the forward pass of a
    loop iteration of a model configured with input size 784: it is
    resized, not rejected. *)
Lemma resized_batch_is_accepted :
  model_of sample_init 784 [3; 2]%Z 2 = Ok sample_model
  ∧ flat_dim sample_small_batch = 9
  ∧ loop_forward sample_uninit (optim_SGD (named_parameters sample_model) 1%Z)
      sample_model sample_small_batch
    = Ok (mkTensor [2; 2] [1; -1; 6; -8]%Z).
Proof. split_and!; vm_compute; reflexivity. Qed.

Lemma loop_forward_input_shape_witness :
  model_of sample_init 784 [3; 2]%Z 2 = Ok sample_model
  ∧ ∃ y, loop_forward sample_uninit (optim_SGD (named_parameters sample_model) 1%Z)
           sample_model sample_small_batch = Ok y
         ∧ shape y = [2; 2].
Proof.
  split; [exact sample_model_built|].
  refine (proj2 (proj2 (loop_forward_input_shape sample_init sample_uninit 784 2 [3; 2]%Z
    sample_model (optim_SGD (named_parameters sample_model) 1%Z) sample_small_batch
    2 [1; 3; 3] _ _)) _).
  - vm_compute. reflexivity.
  - reflexivity.
  - reflexivity.
Defined.


(** After four batches the gradient buffer of the last bias holds the
    gradient of one batch, which is all ones here, not of four; the next
    [zero_grad] leaves a buffer of the same two entries, both zero. *)
Lemma sample_gradients_do_not_accumulate :
  steps sample_state_2 = 4
  ∧ (λ np : string * Param Q, (np.1, grad np.2))
      <$> last (named_parameters (model sample_state_2))
    = Some ("logits.bias", Some (mkTensor [2] [1; 1]%Q))
  ∧ (λ np : string * Param Q, (np.1, grad np.2))
      <$> last (named_parameters (zero_grad sample_optimizer (model sample_state_2)))
    = Some ("logits.bias", Some (mkTensor [2] [0; 0]%Q)).
Proof. split_and!; vm_compute; reflexivity. Qed.

(** With 40 batches an epoch and a report every 40 steps, the first line
    of the second epoch divides by 40 the losses of 40 batches: it is
    their mean, not less. *)
Lemma report_over_a_full_window :
  run_epochs sample_criterion sample_autograd sample_uninitQ sample_optimizer
    epochs print_every (sample_loader 40) sample_modelQ 1 = Ok sample_full_state_1
  ∧ run_epoch sample_criterion sample_autograd sample_uninitQ sample_optimizer
    epochs print_every (sample_loader 40) sample_full_state_1 1 = Ok sample_full_state_2
  ∧ let window :=
      loss_items sample_criterion sample_autograd sample_uninitQ sample_optimizer
        (model sample_full_state_1) (sample_loader 40 1) in
    length window = print_every
    ∧ stdout sample_full_state_2
      = stdout sample_full_state_1
        ++ [mkReport 2 epochs
              (rdiv_int (sum_losses window) (Z.of_nat (length window)))].
Proof. vm_compute. split_and!; reflexivity. Qed.

Lemma first_report_of_epoch_underreports_witness :
  run_epochs sample_criterion sample_autograd sample_uninitQ sample_optimizer
    epochs 3 (sample_loader 2) sample_modelQ 1 = Ok sample_state_1
  ∧ run_epoch sample_criterion sample_autograd sample_uninitQ sample_optimizer
    epochs 3 (sample_loader 2) sample_state_1 1 = Ok sample_state_2
  ∧ ∃ rest, stdout sample_state_2
            = stdout sample_state_1 ++
              mkReport (1 + 1) epochs
                (rdiv_int
                   (sum_losses
                      (take (3 - (1 * 2) mod 3)
                         (loss_items sample_criterion sample_autograd sample_uninitQ
                            sample_optimizer (model sample_state_1) (sample_loader 2 1))))
                   (Z.of_nat 3)) :: rest.
Proof.
  assert (run_epochs sample_criterion sample_autograd sample_uninitQ sample_optimizer
    epochs 3 (sample_loader 2) sample_modelQ 1 = Ok sample_state_1) as H1 by (vm_compute; reflexivity).
  assert (run_epoch sample_criterion sample_autograd sample_uninitQ sample_optimizer
    epochs 3 (sample_loader 2) sample_state_1 1 = Ok sample_state_2) as H2
    by (vm_compute; reflexivity).
  split_and!; [exact H1 | exact H2 |].
  exact (proj1 (proj2 (proj2 (first_report_of_epoch_underreports
    sample_criterion sample_autograd sample_uninitQ sample_optimizer epochs 3
    (sample_loader 2) sample_modelQ 2 1 sample_state_1 sample_state_2
    (λ e, length_replicate 2 sample_batch) H1 H2
    ltac:(vm_compute; discriminate) ltac:(vm_compute; lia))))).
Defined.

(** The notebook's run: 938 batches an epoch.  The second epoch begins
    after 938 steps and the third after 1876, so their first lines sum 22
    and 4 batches and divide by 40. *)
Lemma notebook_first_reports :
  (1 * 938) mod print_every ≠ 0 ∧ print_every - (1 * 938) mod print_every = 22
  ∧ (2 * 938) mod print_every ≠ 0 ∧ print_every - (2 * 938) mod print_every = 4.
Proof. by vm_compute. Qed.

(** In that run the second epoch begins after 2 steps: its first line
    shows a third of the loss of its first batch. *)
Lemma sample_first_report :
  take 1 (loss_items sample_criterion sample_autograd sample_uninitQ
            sample_optimizer (model sample_state_1) (sample_loader 2 1)) = [11%Q]
  ∧ stdout sample_state_2 = stdout sample_state_1 ++ [mkReport 2 epochs (11 # 3)%Q].
Proof. split; vm_compute; reflexivity. Qed.

(** ** Saving and loading *)

(** Two ways in which a model does not come back.  A model with input
    size 3 and output size 2: its checkpoint says 784 and 10, and loading
    it raises.  A model with input size 784, output size 10 and dropout
    probability 0.2, in training mode: the loaded model is in training
    mode with probability 0.5, and even when dropout drops nothing the
    two outputs differ. *)
Lemma round_trip_fails :
  (fc_model_Network sample_init 3 2 [2]%Z (Some (1 # 5)%Q) = Ok sample_network
   ∧ load_checkpoint sample_init "checkpoint.pth"
       (save_checkpoint sample_network "checkpoint.pth" ∅)
     = Raise (LoadStateDictError
         [SizeMismatch "hidden_layers.0.weight" [2; 3] [2; 784];
          SizeMismatch "output.weight" [2; 2] [10; 2];
          SizeMismatch "output.bias" [2] [10]]))
  ∧ (fc_model_Network sample_initQ 784 10 [2]%Z (Some (1 # 5)%Q) = Ok sample_networkQ
     ∧ load_checkpoint sample_initQ "checkpoint.pth"
         (save_checkpoint sample_networkQ "checkpoint.pth" ∅) = Ok sample_loadedQ
     ∧ ∃ y y' v v',
         Network_forward keep_all_dropout sample_networkQ sample_onesQ = Ok y
         ∧ Network_forward keep_all_dropout sample_loadedQ sample_onesQ = Ok y'
         ∧ storage y !! 1 = Some v ∧ storage y' !! 1 = Some v'
         ∧ (v == - (9 # 4))%Q ∧ (v' == - 3)%Q).
Proof.
  split; [split; vm_compute; reflexivity|].
  split; [vm_compute; reflexivity|]. split; [vm_compute; reflexivity|].
  eexists _, _, _, _.
  split; [vm_compute; reflexivity|]. split; [vm_compute; reflexivity|].
  split; [reflexivity|]. split; [reflexivity|].
  split; vm_compute; reflexivity.
Qed.

Lemma sample_network_784_wf : Network_wf 784 10 sample_network_784.
Proof.
  unfold Network_wf, linear_wf, hidden_widths. simpl.
  split_and!; try lia; try reflexivity.
  repeat constructor.
Qed.

Lemma save_then_load_round_trip_witness :
  Network_wf 784 10 sample_network_784
  ∧ ∃ net', load_checkpoint sample_init "checkpoint.pth"
              (save_checkpoint sample_network_784 "checkpoint.pth" ∅) = Ok net'
            ∧ state_dict net' = state_dict sample_network_784
            ∧ ∀ x, Network_forward (λ _ t, t) (eval net') x
                   = Network_forward (λ _ t, t) (eval sample_network_784) x.
Proof.
  split; [exact sample_network_784_wf|].
  exact (save_then_load_round_trip sample_init (λ _ t, t) sample_network_784
           "checkpoint.pth" ∅ sample_network_784_wf).
Defined.


(** The notebook's case in small: loading the state dict of a network
    with hidden sizes [2] into one built with [4]. *)
Lemma sample_load_error :
  load_state_dict sample_other_network (state_dict sample_network)
  = Raise (LoadStateDictError
      [SizeMismatch "hidden_layers.0.weight" [2; 3] [4; 3];
       SizeMismatch "hidden_layers.0.bias" [2] [4];
       SizeMismatch "output.weight" [2; 2] [2; 4]]).
Proof. vm_compute. reflexivity. Qed.

Lemma invalid_configuration_is_rejected_witness :
  fc_model_Network sample_init 784 10 [512; 0; 128]%Z None = Raise ConfigurationError.
Proof.
  apply invalid_configuration_is_rejected. right; right.
  apply list_elem_of_In. simpl. auto.
Defined.

Lemma loaded_dropout_is_default_witness :
  dropout sample_network_784 = (1 # 5)%Q
  ∧ load_checkpoint sample_init "checkpoint.pth"
      (save_checkpoint sample_network_784 "checkpoint.pth" ∅) = Ok sample_loaded
  ∧ dropout sample_loaded = (1 # 2)%Q.
Proof.
  assert (load_checkpoint sample_init "checkpoint.pth"
            (save_checkpoint sample_network_784 "checkpoint.pth" ∅) = Ok sample_loaded)
    as Hload by (vm_compute; reflexivity).
  split_and!; [reflexivity | exact Hload |].
  exact (proj1 (loaded_dropout_is_default sample_init sample_network_784
                  "checkpoint.pth" ∅ sample_loaded Hload)).
Defined.

(** * The rest of the notebooks

    The cells the statements above do not reach (the loader of the data,
    the cell that checks a prediction, the round trip of the bare state
    dict) and what else the cells above do: the whole output of the
    training loop, what a training step does to the weights, what the two
    resizes read, what a failed [load_state_dict] leaves behind. *)

(** ** The data loader *)

Section Loader.
Context {A : Type}.

Lemma batch_sampler_spec (bs : nat) (sampler : list A) :
  0 < bs →
  ∀ batch : list A,
    length batch < bs →
    concat (batch_sampler bs batch sampler) = batch ++ sampler
    ∧ length (batch_sampler bs batch sampler)
      = (length batch + length sampler + bs - 1) / bs
    ∧ Forall (λ b, 1 ≤ length b ≤ bs) (batch_sampler bs batch sampler)
    ∧ ∀ j b, batch_sampler bs batch sampler !! j = Some b →
        S j < length (batch_sampler bs batch sampler) → length b = bs.
Proof.
  intros Hbs. induction sampler as [|idx rest IH]; intros batch Hlen.
  - cbn [batch_sampler]. destruct batch as [|a batch].
    + split_and!; [done| |done|done]. simpl. symmetry. apply Nat.div_small. lia.
    + split_and!.
      * simpl. by rewrite !app_nil_r.
      * simpl in *. apply (Nat.div_unique _ _ _ (length batch)); lia.
      * apply Forall_singleton. simpl in *. lia.
      * intros [|j] b Hj Hlast; simpl in Hlast; lia.
  - cbn [batch_sampler]. cbv zeta. rewrite length_app. cbn [length].
    case_decide as Hfull.
    + destruct (IH [] ltac:(simpl; lia)) as (Hc & Hl & Hall & Hlast).
      split_and!.
      * cbn [concat]. rewrite Hc. by rewrite <- !app_assoc.
      * cbn [length]. rewrite Hl. cbn [length].
        replace (length batch + S (length rest) + bs - 1)
          with (0 + length rest + bs - 1 + 1 * bs) by lia.
        rewrite Nat.div_add by lia. lia.
      * apply Forall_cons. split; [|done]. rewrite length_app. simpl. lia.
      * intros [|j] b Hj Hlt; cbn in Hj.
        -- injection Hj as <-. rewrite length_app. simpl. lia.
        -- apply (Hlast j b Hj). cbn [length] in Hlt. lia.
    + destruct (IH (batch ++ [idx])) as (Hc & Hl & Hall & Hlast).
      { rewrite length_app. simpl. lia. }
      split_and!.
      * rewrite Hc. by rewrite <- app_assoc.
      * rewrite Hl, length_app. cbn [length]. f_equal. lia.
      * done.
      * done.
Qed.

(** X3.  What the loader yields in a pass, for a dataset that is not
    empty.  A batch size that is not positive builds no loader.  A loader
    cuts the dataset, in the order drawn for the pass, into batches of
    [batch_size]: every example is in exactly one batch, no batch is
    empty, every batch but the last is full, and there are [len(loader)]
    of them, the number of examples divided by [batch_size] and rounded
    up, whatever the order drawn.  So every pass of the training loop has
    the same number of batches. *)
Theorem loader_yields_every_example_once {B} (collate : list A → B)
    (shuffle : nat → list A → list A) (dataset : list A) (batch_size : Z) (e : nat) :
  dataset ≠ [] →
  (∀ e l, shuffle e l ≡ₚ l) →
  (DataLoader dataset batch_size = None ↔ (batch_size ≤ 0)%Z)
  ∧ ∀ loader, DataLoader dataset batch_size = Some loader →
      let batches := batch_sampler (Z.to_nat batch_size) [] (shuffle e dataset) in
      iter_loader collate shuffle loader e = collate <$> batches
      ∧ concat batches ≡ₚ dataset
      ∧ Forall (λ b, 1 ≤ length b ≤ Z.to_nat batch_size) batches
      ∧ (∀ j b, batches !! j = Some b → S j < length batches →
           length b = Z.to_nat batch_size)
      ∧ length (iter_loader collate shuffle loader e) = loader_len loader
      ∧ loader_len loader
        = (length dataset + Z.to_nat batch_size - 1) / Z.to_nat batch_size
      ∧ 1 ≤ loader_len loader.
Proof.
  intros Hne Hperm. split.
  - unfold DataLoader. case_decide; split; intros; (done || lia).
  - intros loader Hld batches. unfold DataLoader in Hld.
    case_decide as Hbs; [|done]. injection Hld as <-.
    destruct (batch_sampler_spec (Z.to_nat batch_size) (shuffle e dataset)
                ltac:(lia) [] ltac:(simpl; lia)) as (Hc & Hl & Hall & Hlast).
    fold batches in Hc, Hl, Hall, Hlast.
    assert (loader_len (mkLoader dataset (Z.to_nat batch_size))
            = (length dataset + Z.to_nat batch_size - 1) / Z.to_nat batch_size)
      as Hlen by done.
    split_and!; [done| |done|done| |done|].
    + rewrite Hc. simpl. apply Hperm.
    + unfold iter_loader, loader_len. cbn [loader_dataset loader_batch_size].
      fold batches. rewrite length_fmap, Hl. cbn [length].
      by rewrite (Permutation_length (Hperm e dataset)).
    + rewrite Hlen. destruct dataset as [|a dataset]; [done|]. cbn [length].
      apply Nat.div_le_lower_bound; lia.
Qed.

End Loader.

(** The loader of the notebook: 60000 training images in batches of 64
    are 938 batches, the last one of 32 images. *)
Lemma notebook_loader_len :
  ((60000 + 64 - 1) / 64 = 938 ∧ 60000 mod 64 = 32)%Z.
Proof. by vm_compute. Qed.

(** ** The model cell and the two resizes *)

Section Cells.
Context {R : Type} {SR : Scalar R}.

Lemma numel_cons (n : nat) (dims : list nat) : numel (n :: dims) = n * numel dims.
Proof. done. Qed.

(** X4.  What the model cell reads of its hyperparameters.  With at
    least two hidden sizes and [input_size], [hidden_sizes[0]],
    [hidden_sizes[1]] and [output_size] positive, the cell builds a model;
    and when it builds one, there were at least two hidden sizes and none
    of the four sizes was negative.  The entries of [hidden_sizes] after
    the second are never read, whatever they are.  With no hidden size the
    cell raises [IndexError], and so it does with one, once the first
    layer is built. *)
Theorem model_cell_reads_two_hidden_sizes (init : string → nat → R) (i o : Z)
    (hs : list Z) :
  (∀ h0 h1 rest, hs = h0 :: h1 :: rest →
     (0 < i)%Z → (0 < h0)%Z → (0 < h1)%Z → (0 < o)%Z →
     ∃ m, model_of init i hs o = Ok m)
  ∧ (∀ m, model_of init i hs o = Ok m →
       ∃ h0 h1 rest, hs = h0 :: h1 :: rest
                     ∧ (0 ≤ i)%Z ∧ (0 ≤ h0)%Z ∧ (0 ≤ h1)%Z ∧ (0 ≤ o)%Z)
  ∧ (∀ h0 h1 rest, model_of init i (h0 :: h1 :: rest) o = model_of init i [h0; h1] o)
  ∧ model_of init i [] o = Raise IndexError
  ∧ (∀ h0, (0 < i)%Z → (0 < h0)%Z → model_of init i [h0] o = Raise IndexError).
Proof.
  split_and!; [| |done|done|].
  - intros h0 h1 rest -> Hi H0 H1 Ho.
    destruct (model_of_Ok init i o h0 h1 rest Hi H0 H1 ltac:(lia))
      as (fc1 & fc2 & logits & Hm & _).
    eauto.
  - intros m (h0 & h1 & rest & fc1 & fc2 & logits & -> & H1 & H2 & H3 & _)%model_of_inv.
    apply nn_Linear_inv in H1 as (? & ? & _).
    apply nn_Linear_inv in H2 as (? & ? & _).
    apply nn_Linear_inv in H3 as (? & ? & _).
    exists h0, h1, rest. split_and!; [done|lia..].
  - intros h0 Hi H0. unfold model_of. simpl.
    rewrite nn_Linear_Ok by lia. done.
Qed.

(** The elements of a resized tensor: what the storage held, cut to the
    new number of elements, then fresh memory. *)
Lemma elems_resize_ (uninit : nat → R) (t : Tensor R) (sizes : list nat) :
  elems (resize_ uninit t sizes)
  = take (numel sizes) (storage t)
    ++ (uninit <$> seq (length (storage t)) (numel sizes - length (storage t))).
Proof.
  unfold elems, resize_. cbn [shape storage].
  rewrite take_app. f_equal.
  apply take_ge. by rewrite length_fmap, length_seq.
Qed.

Lemma numel_rows (b n : nat) : numel [b; n] = b * n.
Proof. unfold numel. cbn [foldr]. by rewrite Nat.mul_1_r. Qed.

(** X5.  Flattening in the training loop.  For a batch of [b] examples
    stored one after the other, [images.resize_(images.size()[0], 784)]
    gives a tensor of shape [(b, 784)] whose elements are those of the
    batch, cut after [b * 784] values, then fresh memory if the batch held
    fewer.  When every example has exactly 784 values the storage is not
    touched: the result holds the values of the batch, row [r] being
    example [r], and nothing uninitialised is read.  A tensor without
    dimensions has no [size()[0]]: the statement raises [IndexError]. *)
Theorem flatten_keeps_the_values (uninit : nat → R) (t : Tensor R)
    (b : nat) (dims : list nat) :
  shape t = b :: dims → length (storage t) = b * numel dims →
  (∀ values, flatten_images uninit (mkTensor [] values) = Raise IndexError)
  ∧ ∃ t', flatten_images uninit t = Ok t'
      ∧ shape t' = [b; 784]
      ∧ elems t' = take (b * 784) (storage t)
                   ++ (uninit <$> seq (b * numel dims) (b * 784 - b * numel dims))
      ∧ (numel dims = 784 →
         t' = mkTensor [b; 784] (storage t)
         ∧ elems t' = elems t
         ∧ ∀ r, row 784 (elems t') r = row (flat_dim t) (elems t) r).
Proof.
  intros Hs Hlen. split; [done|].
  unfold flatten_images, tensor_size. rewrite Hs.
  cbn [py_index lookup list_lookup]. rewrite bind_Ok_l.
  eexists. split; [done|]. split; [done|]. split.
  - by rewrite elems_resize_, numel_rows, Hlen.
  - intros Hd.
    assert (elems t = storage t) as He.
    { unfold elems. apply take_ge. rewrite Hs. cbn [numel foldr].
      fold (numel dims). lia. }
    assert (resize_ uninit t [b; 784] = mkTensor [b; 784] (storage t)) as Hr.
    { unfold resize_. rewrite numel_rows, Hlen, Hd, Nat.sub_diag. cbn [seq fmap list_fmap].
      by rewrite app_nil_r. }
    assert (elems (mkTensor [b; 784] (storage t)) = elems t) as Hel.
    { unfold elems at 1. cbn [shape storage]. rewrite He.
      apply take_ge. by rewrite numel_rows, Hlen, Hd. }
    rewrite Hr, Hel. split_and!; [done..|].
    intros r. unfold flat_dim. rewrite Hs. cbn [tail]. by rewrite Hd.
Qed.

(** X6.  The resize of the single training step, which asks for 64 rows
    whatever the batch holds.  For a batch of [b] examples of 784 values:
    with [b = 64] the result holds the batch; with fewer, as the last
    batch of an epoch may have, the rows after the [b]-th are whatever the
    fresh memory holds; with more, the examples after the 64th are cut
    off. *)
Theorem single_step_resize_pads_or_cuts (uninit : nat → R) (t : Tensor R)
    (b : nat) (dims : list nat) :
  shape t = b :: dims → numel dims = 784 → length (storage t) = b * 784 →
  shape (resize_ uninit t [64; 784]) = [64; 784]
  ∧ elems (resize_ uninit t [64; 784])
    = take (64 * 784) (elems t) ++ (uninit <$> seq (b * 784) ((64 - b) * 784))
  ∧ (b = 64 → elems (resize_ uninit t [64; 784]) = elems t)
  ∧ (b < 64 →
     elems (resize_ uninit t [64; 784])
     = elems t ++ (uninit <$> seq (b * 784) ((64 - b) * 784))
     ∧ (64 - b) * 784 ≠ 0)
  ∧ (64 < b → elems (resize_ uninit t [64; 784]) = take (64 * 784) (elems t)).
Proof.
  intros Hs Hd Hlen.
  assert (elems t = storage t) as He.
  { unfold elems. apply take_ge. rewrite Hs. cbn [numel foldr].
    fold (numel dims). lia. }
  assert (elems (resize_ uninit t [64; 784])
          = take (64 * 784) (elems t) ++ (uninit <$> seq (b * 784) ((64 - b) * 784))) as Hel.
  { rewrite elems_resize_, numel_rows, Hlen, He. do 3 f_equal. lia. }
  split; [done|]. split; [done|]. rewrite Hel. split_and!.
  - intros ->. rewrite Nat.sub_diag. cbn [Nat.mul seq fmap list_fmap].
    rewrite app_nil_r. apply take_ge. rewrite He, Hlen. done.
  - intros Hb. split; [|lia]. f_equal. apply take_ge. rewrite He, Hlen. lia.
  - intros Hb. replace (64 - b) with 0 by lia. cbn [Nat.mul seq fmap list_fmap].
    by rewrite app_nil_r.
Qed.

End Cells.

(** ** The training step and the training loop *)

Section MoreTraining.
Context {R : Type} {SR : Scalar R}.
Implicit Types (x y : Tensor R) (l : Linear R) (m : Sequential R).

Lemma architecture_map_parameters (f : string → Param R → Param R) m :
  architecture (map_parameters f m) = architecture m.
Proof.
  unfold architecture, map_parameters. rewrite <- list_fmap_compose.
  apply list_fmap_ext. intros i [name md] _. simpl. by destruct md.
Qed.

Lemma named_shapes_map_parameters (f : string → Param R → Param R) m :
  (∀ name p, shape (data (f name p)) = shape (data p)) →
  named_shapes (map_parameters f m) = named_shapes m.
Proof.
  intros Hf. unfold named_shapes.
  rewrite named_parameters_map, <- list_fmap_compose.
  apply list_fmap_ext. intros i [name p] _. simpl. by rewrite Hf.
Qed.

Lemma linear_forward_result_shape l1 l2 x1 x2 :
  in_features l1 = in_features l2 → out_features l1 = out_features l2 →
  shape x1 = shape x2 →
  result_shape (linear_forward l1 x1) = result_shape (linear_forward l2 x2).
Proof.
  intros Hin Hout Hx. unfold linear_forward. rewrite Hx, Hin, Hout.
  destruct (last (shape x2)) as [n|]; [|done].
  by case_decide.
Qed.

(** Whether the forward pass raises, and the shape of what it returns,
    depend on the architecture and on the shape of the input alone. *)
Lemma forward_result_shape m1 :
  ∀ m2 x1 x2,
    architecture m1 = architecture m2 → shape x1 = shape x2 →
    result_shape (forward m1 x1) = result_shape (forward m2 x2).
Proof.
  induction m1 as [|[n1 md1] m1 IH]; intros [|[n2 md2] m2] x1 x2 Harch Hx;
    try discriminate Harch.
  - simpl. by rewrite Hx.
  - unfold architecture in Harch. rewrite !fmap_cons in Harch.
    injection Harch as Hn Hs Harch. simpl in Hn, Hs.
    cbn [forward].
    destruct md1 as [l1|], md2 as [l2|]; try discriminate Hs; cbn [module_forward].
    + injection Hs as Hin Hout.
      pose proof (linear_forward_result_shape l1 l2 x1 x2 Hin Hout Hx) as Hl.
      destruct (linear_forward l1 x1) as [y1|e1], (linear_forward l2 x2) as [y2|e2];
        simpl in Hl; try discriminate Hl.
      * rewrite !bind_Ok_l. apply IH; [done|]. congruence.
      * simpl. congruence.
    + rewrite !bind_Ok_l. apply IH; [done|]. simpl. done.
Qed.

Section Loop.
Variable criterion : Tensor R → list Z → result R.
Variable autograd : list (string * Tensor R) → Tensor R → list Z → string → Tensor R.
Variable uninit : nat → R.
Variable opt : SGD R.
Variables epochs_ print_every_ : nat.

Lemma inner_loop_invariant (I : Sequential R → Prop) :
  (∀ m batch m' loss,
     train_batch criterion autograd uninit opt m batch = Ok (m', loss) → I m → I m') →
  ∀ (e : nat) (batches : list (Tensor R * list Z)) (st st' : LoopState R),
    for_each (loop_body criterion autograd uninit opt epochs_ print_every_ e) st batches
      = Ok st' →
    I (model st) → I (model st').
Proof.
  intros Hstep e batches. induction batches as [|b bs IH]; intros st st' Hrun Hst;
    simpl in Hrun; inv_result.
  - by subst.
  - apply (IH _ _ Hrun). apply loop_body_model in Ha as [loss Hb]. by eapply Hstep.
Qed.

Lemma run_epochs_invariant (I : Sequential R → Prop)
    (trainloader : nat → list (Tensor R * list Z)) :
  (∀ m batch m' loss,
     train_batch criterion autograd uninit opt m batch = Ok (m', loss) → I m → I m') →
  ∀ (m : Sequential R) (n : nat) (st : LoopState R),
    run_epochs criterion autograd uninit opt epochs_ print_every_ trainloader m n = Ok st →
    I m → I (model st).
Proof.
  intros Hstep m n. unfold run_epochs. induction n as [|n IH]; intros st Hrun Hm.
  - simpl in Hrun. inv_result. by subst.
  - rewrite seq_S, for_each_app in Hrun. inv_result.
    simpl in Hrun. inv_result. subst.
    unfold run_epoch in Ha0.
    apply (inner_loop_invariant I Hstep _ _ _ _ Ha0). simpl. by apply IH.
Qed.

Lemma train_batch_architecture m (batch : Tensor R * list Z) (m' : Sequential R) (loss : R) :
  train_batch criterion autograd uninit opt m batch = Ok (m', loss) →
  architecture m' = architecture m ∧ named_shapes m' = named_shapes m.
Proof.
  intros (images & _ & ->)%train_batch_Ok.
  unfold sgd_step, backward, zero_grad. split.
  - by rewrite !architecture_map_parameters.
  - rewrite !named_shapes_map_parameters; [done|..].
    + intros name p. by case_bool_decide.
    + done.
    + intros name p. case_bool_decide; [|done]. by destruct (grad p).
Qed.

Lemma inner_loop_models_agree (E1 pe1 e1 E2 pe2 e2 : nat)
    (batches : list (Tensor R * list Z)) :
  ∀ st1 st2 st1' st2' : LoopState R,
    for_each (loop_body criterion autograd uninit opt E1 pe1 e1) st1 batches = Ok st1' →
    for_each (loop_body criterion autograd uninit opt E2 pe2 e2) st2 batches = Ok st2' →
    model st1 = model st2 → steps st1 = steps st2 →
    model st1' = model st2' ∧ steps st1' = steps st2'.
Proof.
  induction batches as [|b bs IH]; intros st1 st2 st1' st2' H1 H2 Hm Hs;
    simpl in H1, H2; inv_result.
  - by subst.
  - apply (IH _ _ _ _ H1 H2).
    + apply loop_body_model in Ha0 as [loss1 Hb1].
      apply loop_body_model in Ha as [loss2 Hb2].
      rewrite Hm in Hb1. rewrite Hb1 in Hb2. by injection Hb2.
    + apply loop_body_Ok in Ha0 as (? & ? & _ & _ & ->).
      apply loop_body_Ok in Ha as (? & ? & _ & _ & ->).
      repeat case_decide; simpl; lia.
Qed.

Lemma inner_loop_reports (e : nat) (batches : list (Tensor R * list Z)) (st st' : LoopState R) :
  for_each (loop_body criterion autograd uninit opt epochs_ print_every_ e) st batches = Ok st' →
  stdout st' = stdout st ++
    reports_from epochs_ print_every_ e (steps st) (running_loss st)
      (loss_items criterion autograd uninit opt (model st) batches).
Proof.
  revert st. induction batches as [|b bs IH]; intros st Hrun; simpl in Hrun; inv_result.
  - subst. simpl. by rewrite app_nil_r.
  - apply IH in Hrun. apply loop_body_Ok in Ha as (m1 & loss & Htb & _ & ->).
    simpl. rewrite Htb. simpl. rewrite Hrun.
    case_decide; simpl; [|done]. by rewrite <- app_assoc.
Qed.

Lemma div_succ (s pe : nat) :
  (s + 1) / pe = s / pe + (if decide ((s + 1) mod pe = 0) then 1 else 0).
Proof.
  destruct (decide (pe = 0)) as [->|Hpe].
  - simpl. case_decide; lia.
  - pose proof (Nat.div_mod_eq s pe) as Hs.
    pose proof (Nat.mod_upper_bound s pe Hpe) as Hr.
    pose proof (Nat.div_mod_eq (s + 1) pe) as Hs1.
    pose proof (Nat.mod_upper_bound (s + 1) pe Hpe) as Hr1.
    case_decide as Hm.
    + symmetry. apply (Nat.div_unique _ _ _ 0); [lia|].
      rewrite Hm in Hs1.
      assert (s mod pe = pe - 1) as Hx; [|nia].
      destruct (decide (s mod pe = pe - 1)); [done|].
      assert ((s + 1) mod pe = s mod pe + 1) as Hy; [|lia].
      symmetry. apply (Nat.mod_unique _ _ (s / pe)); lia.
    + symmetry. apply (Nat.div_unique _ _ _ (s mod pe + 1)); [|lia].
      destruct (decide (s mod pe + 1 = pe)) as [Heq|]; [|lia].
      exfalso. apply Hm. symmetry. apply (Nat.mod_unique _ _ (s / pe + 1)); nia.
Qed.

Lemma reports_from_length (e s : nat) (r : R) (losses : list R) :
  length (reports_from epochs_ print_every_ e s r losses)
  = (s + length losses) / print_every_ - s / print_every_.
Proof.
  revert s r. induction losses as [|l ls IH]; intros s r; simpl.
  - rewrite Nat.add_0_r. lia.
  - pose proof (div_succ s print_every_) as Hd.
    pose proof (Nat.Div0.div_le_mono (s + 1) (s + 1 + length ls) print_every_) as Hmono.
    replace (s + S (length ls)) with (s + 1 + length ls) by lia.
    case_decide; simpl; rewrite IH; lia.
Qed.

Lemma reports_from_first (e : nat) (losses : list R) :
  ∀ (k s : nat) (r : R),
    (∀ j, 1 ≤ j < k → (s + j) mod print_every_ ≠ 0) →
    (s + k) mod print_every_ = 0 →
    1 ≤ k ≤ length losses →
    reports_from epochs_ print_every_ e s r losses
    = mkReport (e + 1) epochs_
        (rdiv_int (foldl radd r (take k losses)) (Z.of_nat print_every_))
      :: reports_from epochs_ print_every_ e (s + k) r0 (drop k losses).
Proof.
  induction losses as [|l ls IH]; intros k s r Hno Hk Hlen; simpl in Hlen; [lia|].
  destruct k as [|[|k]]; [lia| |]; cbn [reports_from].
  - by rewrite decide_True.
  - rewrite decide_False by (apply Hno; lia).
    rewrite (IH (S k)).
    + replace (s + 1 + S k) with (s + S (S k)) by lia. done.
    + intros j Hj. replace (s + 1 + j) with (s + (j + 1)) by lia. apply Hno. lia.
    + by replace (s + 1 + S k) with (s + S (S k)) by lia.
    + lia.
Qed.

Lemma reports_from_aligned (e : nat) :
  print_every_ ≠ 0 →
  ∀ (n : nat) (ls : list R) (s : nat),
    s mod print_every_ = 0 → length ls / print_every_ = n →
    reports_from epochs_ print_every_ e s r0 ls
    = (λ j, mkReport (e + 1) epochs_
              (rdiv_int (sum_losses (take print_every_ (drop (j * print_every_) ls)))
                 (Z.of_nat print_every_))) <$> seq 0 n.
Proof.
  intros Hpe. induction n as [|n IH]; intros ls s Hs Hn.
  - apply length_zero_iff_nil. rewrite reports_from_length.
    apply Nat.div_small_iff in Hn; [|done].
    pose proof (Nat.div_mod_eq s print_every_) as Hq. rewrite Hs in Hq.
    rewrite (Nat.div_unique (s + length ls) print_every_ (s / print_every_) (length ls));
      lia.
  - assert (print_every_ ≤ length ls) as Hlen.
    { destruct (decide (print_every_ ≤ length ls)); [done|].
      rewrite Nat.div_small in Hn; lia. }
    destruct (steps_to_next_report s print_every_ Hpe) as (_ & Hmod & Hno & _).
    rewrite Hs, Nat.sub_0_r in Hmod, Hno.
    rewrite (reports_from_first e ls print_every_ s r0 Hno Hmod) by lia.
    rewrite (IH (drop print_every_ ls) (s + print_every_) Hmod).
    + rewrite <- cons_seq, fmap_cons, <- fmap_S_seq, <- list_fmap_compose.
      f_equal. apply list_fmap_ext. intros i j _. simpl. by rewrite drop_drop.
    + rewrite length_drop.
      assert (length ls = (length ls - print_every_) + 1 * print_every_) as Hl by lia.
      rewrite Hl, Nat.div_add in Hn by done. lia.
Qed.

Lemma reports_from_windows (e s : nat) (losses : list R) :
  let k0 := print_every_ - s mod print_every_ in
  let window (j : nat) :=
    match j with
    | 0 => take k0 losses
    | S i => take print_every_ (drop (k0 + i * print_every_) losses)
    end in
  let lines := (s + length losses) / print_every_ - s / print_every_ in
  reports_from epochs_ print_every_ e s r0 losses
  = (λ j, mkReport (e + 1) epochs_
            (rdiv_int (sum_losses (window j)) (Z.of_nat print_every_))) <$> seq 0 lines
  ∧ (∀ j, j < lines → length (window j) = match j with 0 => k0 | S _ => print_every_ end)
  ∧ (0 < lines →
     k0 + (lines - 1) * print_every_ + (s + length losses) mod print_every_
     = length losses).
Proof.
  intros k0 window lines.
  destruct (decide (print_every_ = 0)) as [Hpe|Hpe].
  { assert (lines = 0) as Hl by (unfold lines; rewrite Hpe; simpl; lia).
    rewrite Hl. split_and!; [|lia..].
    apply length_zero_iff_nil. rewrite reports_from_length. exact Hl. }
  pose proof (Nat.div_mod_eq s print_every_) as Hq.
  pose proof (Nat.mod_upper_bound s print_every_ Hpe) as Hr.
  destruct (steps_to_next_report s print_every_ Hpe) as (Hk0 & Hmod & Hno & _).
  fold k0 in Hk0, Hmod, Hno.
  destruct (decide (k0 ≤ length losses)) as [Hlen|Hlen].
  - pose proof (Nat.div_mod_eq (length losses - k0) print_every_) as Hq'.
    pose proof (Nat.mod_upper_bound (length losses - k0) print_every_ Hpe) as Hr'.
    assert ((s + length losses) / print_every_
            = s / print_every_ + 1 + (length losses - k0) / print_every_
            ∧ (s + length losses) mod print_every_ = (length losses - k0) mod print_every_)
      as [Hdiv Hrem].
    { split.
      - symmetry. apply (Nat.div_unique _ _ _ ((length losses - k0) mod print_every_));
          [lia|]. unfold k0 in *. nia.
      - symmetry. apply (Nat.mod_unique _ _
          (s / print_every_ + 1 + (length losses - k0) / print_every_)); [lia|].
        unfold k0 in *. nia. }
    assert (lines = S ((length losses - k0) / print_every_)) as Hl by (unfold lines; lia).
    rewrite Hl. split_and!.
    + rewrite (reports_from_first e losses k0 s r0 Hno Hmod) by lia.
      rewrite (reports_from_aligned e Hpe ((length losses - k0) / print_every_)
                 (drop k0 losses) (s + k0) Hmod) by (by rewrite length_drop).
      rewrite <- cons_seq, fmap_cons, <- fmap_S_seq, <- list_fmap_compose.
      f_equal. apply list_fmap_ext. intros i j _. simpl. by rewrite drop_drop.
    + intros [|j] Hj; unfold window.
      * rewrite length_take. lia.
      * rewrite length_take, length_drop.
        assert (S j ≤ (length losses - k0) / print_every_) as Hj' by lia.
        apply (Nat.mul_le_mono_r _ _ print_every_) in Hj'. lia.
    + intros _. rewrite Hrem. simpl. rewrite Nat.sub_0_r. lia.
  - assert (lines = 0) as Hl.
    { unfold lines.
      rewrite (Nat.div_unique (s + length losses) print_every_ (s / print_every_)
                 (s mod print_every_ + length losses)); unfold k0 in *; lia. }
    rewrite Hl. split_and!; [|lia..].
    apply length_zero_iff_nil. rewrite reports_from_length. exact Hl.
Qed.

Lemma reports_from_labels (e s : nat) (r : R) (losses : list R) :
  Forall (λ line, report_epoch line = e + 1 ∧ report_epochs line = epochs_)
    (reports_from epochs_ print_every_ e s r losses).
Proof.
  revert s r. induction losses as [|l ls IH]; intros s r; simpl; [done|].
  case_decide; [|done]. apply Forall_cons. by split.
Qed.

Lemma run_epoch_reports (trainloader : nat → list (Tensor R * list Z))
    (e : nat) (st st' : LoopState R) :
  run_epoch criterion autograd uninit opt epochs_ print_every_ trainloader st e = Ok st' →
  stdout st' = stdout st ++
    reports_from epochs_ print_every_ e (steps st) r0
      (loss_items criterion autograd uninit opt (model st) (trainloader e))
  ∧ length (loss_items criterion autograd uninit opt (model st) (trainloader e))
    = length (trainloader e).
Proof.
  unfold run_epoch. intros Hrun. split.
  - by apply inner_loop_reports in Hrun.
  - by apply inner_loop_losses in Hrun.
Qed.

Lemma filter_length_all {A} (P : A → Prop) `{∀ a, Decision (P a)} (l : list A) :
  Forall P l → length (filter P l) = length l.
Proof.
  induction 1 as [|a l Ha Hl IH]; [done|].
  rewrite filter_cons_True by done. simpl. by rewrite IH.
Qed.

Lemma filter_length_none {A} (P : A → Prop) `{∀ a, Decision (P a)} (l : list A) :
  Forall (λ a, ¬ P a) l → length (filter P l) = 0.
Proof.
  induction 1 as [|a l Ha Hl IH]; [done|].
  by rewrite filter_cons_False.
Qed.

End Loop.

(** X7.  What the optimizer step does to the weights.  In the single
    training step, with the optimizer built from the parameters of the
    model, the loss is that of the forward pass with the weights as they
    were before the step; and afterwards every parameter has a gradient
    buffer [g] and holds its old value with [-lr * g] added, elementwise:
    [p.data.add_(-lr, p.grad)] with the gradient that is left in the
    buffer.  No parameter is added, dropped or renamed. *)
Theorem training_step_moves_weights_against_gradient
    (criterion : Tensor R → list Z → result R)
    (autograd : list (string * Tensor R) → Tensor R → list Z → string → Tensor R)
    (uninit : nat → R) (lr_ : R) m (batch : Tensor R * list Z)
    (m' : Sequential R) (loss : R) :
  let opt := optim_SGD (named_parameters m) lr_ in
  training_step criterion autograd uninit opt m batch = Ok (m', loss) →
  (∃ output, forward m (resize_ uninit batch.1 [64; 784]) = Ok output
             ∧ criterion output batch.2 = Ok loss)
  ∧ Forall2 (λ np np',
       np'.1 = np.1
       ∧ ∃ g, grad np'.2 = Some g
              ∧ data np'.2 = tensor_axpy (ropp lr_) (data np.2) g)
      (named_parameters m) (named_parameters m').
Proof.
  intros opt Hstep. unfold training_step, forward_backward_step in Hstep.
  cbv zeta in Hstep. inv_result. rewrite forward_zero_grad in Ha.
  injection Hstep as <- <-. split; [eauto|].
  unfold sgd_step, backward, zero_grad. rewrite !named_parameters_map.
  rewrite <- !list_fmap_compose.
  apply Forall2_fmap_r, Forall_Forall2_diag, Forall_forall.
  intros [name p] Hin. simpl.
  assert (name ∈ param_names opt) as Hname.
  { unfold opt, optim_SGD. simpl. apply list_elem_of_fmap. by exists (name, p). }
  rewrite !bool_decide_eq_true_2 by done.
  split; [done|]. simpl. eauto.
Qed.

(** X8.  Training changes values and nothing else.  After any number of
    epochs, the model has the modules it had, by name and with the same
    layer sizes, and every parameter has the shape it had; so on inputs of
    a given shape the forward pass of the trained model raises exactly
    when that of the untrained model does, and returns a tensor of the
    same shape. *)
Theorem training_keeps_the_architecture
    (criterion : Tensor R → list Z → result R)
    (autograd : list (string * Tensor R) → Tensor R → list Z → string → Tensor R)
    (uninit : nat → R) (opt : SGD R) (epochs_ print_every_ : nat)
    (trainloader : nat → list (Tensor R * list Z))
    m (n : nat) (st : LoopState R) :
  run_epochs criterion autograd uninit opt epochs_ print_every_ trainloader m n = Ok st →
  architecture (model st) = architecture m
  ∧ named_shapes (model st) = named_shapes m
  ∧ ∀ x x', shape x = shape x' →
      result_shape (forward (model st) x) = result_shape (forward m x').
Proof.
  intros Hrun.
  assert (architecture (model st) = architecture m
          ∧ named_shapes (model st) = named_shapes m) as [Harch Hshapes].
  { apply (run_epochs_invariant criterion autograd uninit opt epochs_ print_every_
             (λ m', architecture m' = architecture m ∧ named_shapes m' = named_shapes m)
             trainloader) in Hrun; [done| |done].
    intros m1 batch m2 loss Htb [Ha Hs].
    apply train_batch_architecture in Htb as [Ha' Hs']. split; congruence. }
  split_and!; [done..|].
  intros x x' Hx. by apply forward_result_shape.
Qed.

(** X9.  Reporting does not touch training.  Two runs of the loop over
    the same batches that differ in [print_every] and in [epochs] alone
    train the same model and take the same number of steps: the
    bookkeeping of the reports decides what is printed, and nothing
    else. *)
Theorem reporting_does_not_touch_training
    (criterion : Tensor R → list Z → result R)
    (autograd : list (string * Tensor R) → Tensor R → list Z → string → Tensor R)
    (uninit : nat → R) (opt : SGD R) (epochs1 print_every1 epochs2 print_every2 : nat)
    (trainloader : nat → list (Tensor R * list Z))
    (m : Sequential R) (n : nat) (st1 st2 : LoopState R) :
  run_epochs criterion autograd uninit opt epochs1 print_every1 trainloader m n = Ok st1 →
  run_epochs criterion autograd uninit opt epochs2 print_every2 trainloader m n = Ok st2 →
  model st1 = model st2 ∧ steps st1 = steps st2.
Proof.
  unfold run_epochs. revert st1 st2. induction n as [|n IH]; intros st1 st2 H1 H2.
  - simpl in H1, H2. inv_result. by subst.
  - rewrite seq_S, for_each_app in H1, H2.
    apply bind_Ok in H1 as (s1 & Hs1 & H1). apply bind_Ok in H2 as (s2 & Hs2 & H2).
    simpl in H1, H2.
    apply bind_Ok in H1 as (s1' & H1 & Heq1). apply bind_Ok in H2 as (s2' & H2 & Heq2).
    inv_result. subst s1' s2'.
    destruct (IH _ _ Hs1 Hs2) as [Hm Hs].
    unfold run_epoch in H1, H2.
    by apply (inner_loop_models_agree criterion autograd uninit opt
                _ _ _ _ _ _ _ _ _ _ _ H1 H2).
Qed.

(** X10.  The lines of an epoch, all of them.  An epoch entered after [s]
    steps prints one line for each multiple of [print_every] among the
    step numbers [s + 1 .. s + N].  The first line sums the losses since
    the epoch began; every later line sums exactly the [print_every]
    losses since the line before it, so it shows their mean; and the
    losses of the last [(s + N) mod print_every] batches of the epoch are
    in no line at all, the running loss being reset when the next epoch
    begins.  In an epoch entered at a multiple of [print_every], as the
    first one is, every line is a mean over [print_every] batches. *)
Theorem epoch_lines_are_window_sums
    (criterion : Tensor R → list Z → result R)
    (autograd : list (string * Tensor R) → Tensor R → list Z → string → Tensor R)
    (uninit : nat → R) (opt : SGD R) (epochs_ print_every_ : nat)
    (trainloader : nat → list (Tensor R * list Z))
    (e : nat) (st st' : LoopState R) :
  run_epoch criterion autograd uninit opt epochs_ print_every_ trainloader st e = Ok st' →
  let losses := loss_items criterion autograd uninit opt (model st) (trainloader e) in
  let k0 := print_every_ - steps st mod print_every_ in
  let window (j : nat) :=
    match j with
    | 0 => take k0 losses
    | S i => take print_every_ (drop (k0 + i * print_every_) losses)
    end in
  let lines :=
    (steps st + length (trainloader e)) / print_every_ - steps st / print_every_ in
  length losses = length (trainloader e)
  ∧ stdout st' = stdout st ++
      ((λ j, mkReport (e + 1) epochs_
               (rdiv_int (sum_losses (window j)) (Z.of_nat print_every_))) <$> seq 0 lines)
  ∧ (∀ j, j < lines → length (window j) = match j with 0 => k0 | S _ => print_every_ end)
  ∧ (steps st mod print_every_ = 0 → ∀ j, j < lines → length (window j) = print_every_)
  ∧ (0 < lines →
     k0 + (lines - 1) * print_every_
       + (steps st + length (trainloader e)) mod print_every_
     = length (trainloader e)).
Proof.
  intros Hrun losses k0 window lines.
  apply run_epoch_reports in Hrun as [Hout Hlen]. fold losses in Hout, Hlen.
  destruct (reports_from_windows epochs_ print_every_ e (steps st) losses)
    as (Hrep & Hwin & Hrest).
  rewrite Hlen in Hrep, Hwin, Hrest.
  split_and!; [done | by rewrite Hout, Hrep | exact Hwin | | exact Hrest].
  intros Hs [|j] Hj; specialize (Hwin _ Hj); simpl in Hwin; unfold window, k0;
    rewrite Hwin; [|done].
  rewrite Hs. lia.
Qed.

(** X11.  The size of the output.  Over [n] epochs of [N] batches each the
    loop takes [n * N] steps and prints [(n * N) / print_every] lines,
    rounded down: [((e + 1) * N) / print_every - (e * N) / print_every]
    of them in epoch [e], each labelled with that epoch's number, counted
    from one, and with the total number of epochs. *)
Theorem run_prints_a_line_every_print_every_steps
    (criterion : Tensor R → list Z → result R)
    (autograd : list (string * Tensor R) → Tensor R → list Z → string → Tensor R)
    (uninit : nat → R) (opt : SGD R) (epochs_ print_every_ : nat)
    (trainloader : nat → list (Tensor R * list Z))
    (m : Sequential R) (N n : nat) (st : LoopState R) :
  (∀ e, length (trainloader e) = N) →
  run_epochs criterion autograd uninit opt epochs_ print_every_ trainloader m n = Ok st →
  steps st = n * N
  ∧ length (stdout st) = (n * N) / print_every_
  ∧ (∀ e, e < n →
       length (filter (λ line, report_epoch line = e + 1) (stdout st))
       = ((e + 1) * N) / print_every_ - (e * N) / print_every_)
  ∧ Forall (λ line, report_epochs line = epochs_ ∧ 1 ≤ report_epoch line ≤ n) (stdout st).
Proof.
  intros HN Hrun.
  split; [by eapply run_epochs_steps|].
  revert st Hrun. unfold run_epochs. induction n as [|n IH]; intros st Hrun.
  - simpl in Hrun. inv_result. subst st. simpl.
    split_and!; [by rewrite Nat.Div0.div_0_l | lia | done].
  - rewrite seq_S, for_each_app in Hrun. inv_result.
    simpl in Hrun. inv_result. subst a0. rename a into st_n.
    destruct (IH st_n Ha) as (Hlen & Hcount & Hlab).
    pose proof (run_epochs_steps _ _ _ _ _ _ _ _ _ _ _ HN Ha) as Hsteps.
    apply run_epoch_reports in Ha0 as [Hout Hlosses].
    rewrite HN, Hsteps in *.
    pose proof (reports_from_length epochs_ print_every_ n (n * N) r0
      (loss_items criterion autograd uninit opt (model st_n) (trainloader n))) as Hl.
    rewrite Hlosses in Hl.
    pose proof (reports_from_labels epochs_ print_every_ n (n * N) r0
      (loss_items criterion autograd uninit opt (model st_n) (trainloader n))) as Hnew.
    pose proof (Nat.Div0.div_le_mono (n * N) (n * N + N) print_every_) as Hmono.
    rewrite Hout. split_and!.
    + rewrite length_app, Hlen, Hl. replace (S n * N) with (n * N + N) by lia. lia.
    + intros e He. rewrite filter_app, length_app.
      destruct (decide (e = n)) as [->|Hne].
      * rewrite filter_length_none, filter_length_all, Hl.
        -- replace ((n + 1) * N) with (n * N + N) by lia. lia.
        -- eapply Forall_impl; [exact Hnew|]. simpl. tauto.
        -- eapply Forall_impl; [exact Hlab|]. simpl. lia.
      * rewrite Hcount by lia. rewrite (filter_length_none _ (reports_from _ _ _ _ _ _)); [lia|].
        eapply Forall_impl; [exact Hnew|]. simpl. lia.
    + apply Forall_app. split.
      * eapply Forall_impl; [exact Hlab|]. simpl. lia.
      * eapply Forall_impl; [exact Hnew|]. simpl. lia.
Qed.

End MoreTraining.

(** ** The cell that checks a prediction *)

Section Prediction.
Context {R : Type} {SR : Scalar R}.

Lemma view_Ok (t : Tensor R) (sizes : list nat) :
  numel sizes = numel (shape t) → view t sizes = Ok (mkTensor sizes (elems t)).
Proof. intros Hn. unfold view. by rewrite decide_True. Qed.

Lemma view_mismatch (t : Tensor R) (sizes : list nat) :
  numel sizes ≠ numel (shape t) → view t sizes = Raise (InputShapeError (shape t) sizes).
Proof. intros Hn. unfold view. by rewrite decide_False. Qed.

(** X12.  The cell that checks a prediction takes the first image of a
    batch with [view], which, unlike the [resize_] of the training loop,
    insists on the number of values.  For a batch of [b] examples stored
    one after the other and a model built by the model cell: an empty
    batch raises [IndexError]; an image that has not 784 values raises
    the shape error of [view], whatever the model; an image of 784 values
    is rejected by the forward pass when the model was configured with
    another input size, and otherwise gives one row of [output_size]
    scores, the image shown being the first 784 values of the batch. *)
Theorem prediction_cell_checks_the_image_size (init : string → nat → R)
    (F_softmax : Tensor R → Tensor R) (i o : Z) (hs : list Z) (m : Sequential R)
    (images : Tensor R) (label : Z) (labels : list Z) (b : nat) (dims : list nat) :
  model_of init i hs o = Ok m →
  shape images = b :: dims →
  length (storage images) = b * numel dims →
  predict F_softmax m (images, []) = Raise IndexError
  ∧ (b = 0 → predict F_softmax m (images, label :: labels) = Raise IndexError)
  ∧ (0 < b → numel dims ≠ 784 →
     predict F_softmax m (images, label :: labels) = Raise (InputShapeError dims [1; 784]))
  ∧ (0 < b → numel dims = 784 → Z.to_nat i ≠ 784 →
     ∃ w, predict F_softmax m (images, label :: labels)
          = Raise (InputShapeError [1; 784] w))
  ∧ (0 < b → numel dims = 784 → Z.to_nat i = 784 →
     ∃ logits,
       forward m (mkTensor [1; 784] (take 784 (storage images))) = Ok logits
       ∧ shape logits = [1; Z.to_nat o]
       ∧ predict F_softmax m (images, label :: labels)
         = Ok (label, mkTensor [1; 28; 28] (take 784 (storage images)), F_softmax logits)).
Proof.
  intros Hm Hs Hlen.
  assert (elems images = storage images) as He.
  { unfold elems. apply take_ge. rewrite Hs, numel_cons. lia. }
  assert (0 < b → tensor_getitem images 0
            = Ok (mkTensor dims (take (numel dims) (storage images)))) as Hget.
  { intros Hb. unfold tensor_getitem. rewrite Hs, decide_True by done.
    by rewrite He. }
  assert (elems (mkTensor dims (take (numel dims) (storage images)))
          = take (numel dims) (storage images)) as Hel.
  { unfold elems. cbn [shape storage]. by rewrite take_take, Nat.min_id. }
  split_and!.
  - done.
  - intros ->. unfold predict. cbn [fst snd py_index lookup list_lookup].
    rewrite bind_Ok_l. unfold tensor_getitem. rewrite Hs. done.
  - intros Hb Hd. unfold predict. cbn [fst snd py_index lookup list_lookup].
    rewrite bind_Ok_l, (Hget Hb), bind_Ok_l.
    rewrite view_mismatch; [done|].
    cbn [shape]. by rewrite (numel_rows 1 784), Nat.mul_1_l.
  - intros Hb Hd Hi. unfold predict. cbn [fst snd py_index lookup list_lookup].
    rewrite bind_Ok_l, (Hget Hb), bind_Ok_l.
    rewrite view_Ok by (cbn [shape]; by rewrite (numel_rows 1 784), Nat.mul_1_l).
    rewrite bind_Ok_l.
    pose proof Hm as (h0 & h1 & rest & fc1 & fc2 & logits & -> & H1 & H2 & H3 & ->)%model_of_inv.
    apply nn_Linear_inv in H1 as (? & ? & Hfc1).
    cbn [forward module_forward].
    rewrite (linear_forward_mismatch fc1 _ 784); [cbn; eauto|done|].
    rewrite Hfc1. cbn. congruence.
  - intros Hb Hd Hi.
    pose proof Hm as (h0 & h1 & rest & fc1 & fc2 & logits & -> & H1 & H2 & H3 & ->)%model_of_inv.
    apply nn_Linear_inv in H1 as (? & ? & Hfc1).
    apply nn_Linear_inv in H2 as (? & ? & Hfc2).
    apply nn_Linear_inv in H3 as (? & ? & Hlog).
    destruct (forward_layers_shape fc1 fc2 logits
                (mkTensor [1; 784] (take 784 (storage images))) [1]) as (y & Hy & Hsy).
    { by rewrite Hfc1, Hfc2. } { by rewrite Hfc2, Hlog. }
    { rewrite Hfc1. cbn. by rewrite Hi. }
    exists y. split; [exact Hy|]. split; [by rewrite Hsy, Hlog|].
    unfold predict. cbn [fst snd py_index lookup list_lookup].
    rewrite bind_Ok_l, (Hget Hb), bind_Ok_l.
    rewrite view_Ok by (cbn [shape]; by rewrite (numel_rows 1 784), Nat.mul_1_l).
    rewrite bind_Ok_l, Hel, Hd, Hy, bind_Ok_l.
    rewrite view_Ok; [|cbn [shape]; by rewrite (numel_rows 1 784)].
    rewrite bind_Ok_l. do 3 f_equal.
    unfold elems. cbn [shape storage]. rewrite take_take.
    f_equal; rewrite (numel_rows 1 784); lia.
Qed.

End Prediction.

(** ** State dicts and checkpoints *)

Section MoreStateDict.
Context {R : Type} {SR : Scalar R}.
Implicit Types (l : Linear R) (ls : list (Linear R)) (net : Network R)
  (ps : list (string * Param R)) (sd : list (string * Tensor R)).

Lemma hidden_keys_NoDup (rest : list string) ls :
  (∀ key j f, key ∈ rest → key ≠ hidden_name j +:+ field_suffix f) →
  NoDup rest →
  ∀ k, NoDup ((hidden_parameters k ls).*1 ++ rest).
Proof.
  intros Hrest Hnd. induction ls as [|l ls IH]; intros k; [done|].
  cbn [hidden_parameters]. rewrite linear_parameters_fields.
  cbn [app fmap list_fmap fst]. 
  assert (∀ f key, key ∈ (hidden_parameters (S k) ls).*1 ++ rest →
            key ≠ hidden_name k +:+ field_suffix f) as Hfresh.
  { intros f key [(j & f' & _ & ->)%elem_of_hidden_keys|Hin]%elem_of_app.
    - intros [Heq _]%param_key_inj. apply hidden_name_inj in Heq. lia.
    - by apply Hrest. }
  apply NoDup_cons. split; [|apply NoDup_cons; split; [|apply IH]].
  - intros [Heq|Hin]%elem_of_cons.
    + by apply (weight_ne_bias (hidden_name k) (hidden_name k)).
    + by apply (Hfresh Weight _ Hin).
  - intros Hin. by apply (Hfresh Bias _ Hin).
Qed.

Lemma Network_keys_NoDup net : NoDup (Network_parameters net).*1.
Proof.
  unfold Network_parameters. rewrite fmap_app.
  apply hidden_keys_NoDup.
  - intros key j f Hin Heq. rewrite linear_parameters_fields in Hin.
    cbn [fmap list_fmap fst] in Hin.
    rewrite !elem_of_cons in Hin.
    destruct Hin as [->|[->|Hin%elem_of_nil]]; [..|done];
      symmetry in Heq; by apply hidden_name_ne_output in Heq.
  - cbn [linear_parameters fmap list_fmap fst].
    apply NoDup_cons. split; [|apply NoDup_singleton].
    intros Hin%list_elem_of_singleton.
    by apply (weight_ne_bias "output" "output").
Qed.

Lemma Network_parameters_length net :
  length (Network_parameters net) = 2 * length (hidden_layers net) + 2.
Proof.
  unfold Network_parameters. rewrite length_app. simpl.
  assert (∀ k, length (hidden_parameters k (hidden_layers net))
               = 2 * length (hidden_layers net)) as ->; [|lia].
  induction (hidden_layers net) as [|l ls IH]; intros k; [done|].
  cbn [hidden_parameters]. rewrite length_app, IH. simpl. lia.
Qed.

Lemma Network_keys_depth net1 net2 :
  length (hidden_layers net1) = length (hidden_layers net2) →
  (Network_parameters net1).*1 = (Network_parameters net2).*1.
Proof.
  intros Hlen. unfold Network_parameters. rewrite !fmap_app. f_equal.
  by apply hidden_keys_length.
Qed.

(** Each entry of a state dict is found under its key. *)
Lemma state_dict_lookup net (i : nat) (key : string) (t : Tensor R) :
  state_dict net !! i = Some (key, t) →
  (list_to_map (state_dict net) : gmap string (Tensor R)) !! key = Some t.
Proof.
  intros Hi. apply elem_of_list_to_map_1.
  - unfold state_dict. rewrite state_dict_of_keys. apply Network_keys_NoDup.
  - by eapply list_elem_of_lookup_2.
Qed.

Lemma size_mismatches_zip (sdm : gmap string (Tensor R)) sd ps :
  sd.*1 = ps.*1 →
  (∀ i key t, sd !! i = Some (key, t) → sdm !! key = Some t) →
  size_mismatches sdm ps = zip sd ps ≫= λ ktp, mismatch_report ktp.1 ktp.2.
Proof.
  revert sd. induction ps as [|[key p] ps IH]; intros [|[key' t] sd] Hkeys Hsd;
    try discriminate Hkeys; [done|].
  rewrite !fmap_cons in Hkeys. injection Hkeys as Hk Hkeys. simpl in Hk. subst key'.
  unfold size_mismatches in *. cbn [zip zip_with]. rewrite !bind_cons. f_equal.
  - cbn [fst snd]. rewrite (Hsd 0 key t eq_refl). done.
  - apply IH; [done|]. intros i k' t' Hi. by apply (Hsd (S i)).
Qed.

Lemma load_param_zip (sdm : gmap string (Tensor R)) sd ps :
  sd.*1 = ps.*1 →
  (∀ i key t, sd !! i = Some (key, t) → sdm !! key = Some t) →
  (λ kp, (kp.1, load_param sdm kp.1 kp.2)) <$> ps = zip_with copied_param sd ps.
Proof.
  revert sd. induction ps as [|[key p] ps IH]; intros [|[key' t] sd] Hkeys Hsd;
    try discriminate Hkeys; [done|].
  rewrite !fmap_cons in Hkeys. injection Hkeys as Hk Hkeys. simpl in Hk. subst key'.
  rewrite fmap_cons. cbn [zip_with]. f_equal.
  - unfold copied_param, load_param. cbn [fst snd]. rewrite (Hsd 0 key t eq_refl).
    by case_decide.
  - apply IH; [done|]. intros i k' t' Hi. by apply (Hsd (S i)).
Qed.

Lemma load_errors_same_depth net1 net2 :
  length (hidden_layers net1) = length (hidden_layers net2) →
  load_errors (Network_parameters net2) (state_dict net1)
  = zip (state_dict net1) (Network_parameters net2) ≫= λ ktp, mismatch_report ktp.1 ktp.2.
Proof.
  intros Hlen. pose proof (Network_keys_depth net1 net2 Hlen) as Hkeys.
  assert ((state_dict net1).*1 = (Network_parameters net2).*1) as Hsd.
  { unfold state_dict. by rewrite state_dict_of_keys. }
  unfold load_errors. cbv zeta.
  rewrite (filter_nil_intro (λ k, _ !! k = None)), (filter_nil_intro (λ k, k ∉ _)).
  - cbn [app]. apply size_mismatches_zip; [done|]. apply state_dict_lookup.
  - intros key Hin Hnot. apply Hnot. by rewrite <- Hsd.
  - intros key Hin. rewrite <- Hsd in Hin.
    apply list_elem_of_fmap in Hin as ([key' t] & -> & Hin).
    apply list_elem_of_lookup in Hin as [i Hi]. cbn [fst].
    by rewrite (state_dict_lookup net1 i key' t Hi).
Qed.

Lemma load_update_same_depth net1 net2 :
  length (hidden_layers net1) = length (hidden_layers net2) →
  Network_parameters (load_state_dict_update net2 (state_dict net1))
  = zip_with copied_param (state_dict net1) (Network_parameters net2).
Proof.
  intros Hlen. pose proof (Network_keys_depth net1 net2 Hlen) as Hkeys.
  unfold load_state_dict_update. rewrite Network_parameters_map.
  apply load_param_zip; [|apply state_dict_lookup].
  unfold state_dict. by rewrite state_dict_of_keys.
Qed.

Lemma load_errors_nil_depth net1 net2 :
  load_errors (Network_parameters net2) (state_dict net1) = [] →
  length (hidden_layers net1) = length (hidden_layers net2).
Proof.
  intros Hnil.
  destruct (Nat.lt_trichotomy (length (hidden_layers net1)) (length (hidden_layers net2)))
    as [Hlt|[Heq|Hgt]]; [exfalso|done|exfalso]; revert Hnil; unfold load_errors.
  - pose (key := hidden_name (length (hidden_layers net1)) +:+ field_suffix Weight).
    assert (filter (λ k, (list_to_map (state_dict net1) : gmap string (Tensor R)) !! k = None)
              (Network_parameters net2).*1 ≠ []) as Hmiss.
    { apply (filter_nonempty _ _ key).
      - unfold Network_parameters. rewrite fmap_app, elem_of_app. left.
        apply elem_of_hidden_keys. by exists (length (hidden_layers net1)), Weight.
      - by apply lookup_state_dict_none. }
    destruct (filter _ (Network_parameters net2).*1); [done|]. done.
  - pose (key := hidden_name (length (hidden_layers net2)) +:+ field_suffix Weight).
    assert (filter (λ k, k ∉ (Network_parameters net2).*1) (state_dict net1).*1 ≠ [])
      as Hunexp.
    { apply (filter_nonempty _ _ key).
      - unfold state_dict. rewrite state_dict_of_keys.
        unfold Network_parameters. rewrite fmap_app, elem_of_app. left.
        apply elem_of_hidden_keys. by exists (length (hidden_layers net2)), Weight.
      - unfold Network_parameters. rewrite fmap_app, elem_of_app.
        intros [(j & f & Hj & Hkey)%elem_of_hidden_keys|Hout].
        + apply param_key_inj in Hkey as [Hkey _]. apply hidden_name_inj in Hkey.
          simpl in Hkey. lia.
        + simpl in Hout. rewrite !elem_of_cons in Hout.
          destruct Hout as [Hout|[Hout|Hout%elem_of_nil]]; [..|done];
            by apply hidden_name_ne_output in Hout. }
    destruct (filter _ (Network_parameters net2).*1); simpl;
      destruct (filter _ (state_dict net1).*1); done.
Qed.

Lemma mismatch_reports_nil sd ps :
  sd.*1 = ps.*1 →
  zip sd ps ≫= (λ ktp, mismatch_report ktp.1 ktp.2) = []
  ↔ (λ kp, (kp.1, shape (data kp.2))) <$> ps = (λ kt, (kt.1, shape kt.2)) <$> sd.
Proof.
  revert sd. induction ps as [|[key p] ps IH]; intros [|[key' t] sd] Hkeys;
    try discriminate Hkeys; [done|].
  rewrite !fmap_cons in Hkeys. injection Hkeys as Hk Hkeys. simpl in Hk. subst key'.
  cbn [zip zip_with]. rewrite bind_cons, !fmap_cons. cbn [fst snd].
  unfold mismatch_report at 1. cbn [fst snd]. split.
  - intros Hnil. apply app_eq_nil in Hnil as [Hhd Htl].
    f_equal; [|by apply IH].
    case_decide; [congruence|done].
  - intros Heq. injection Heq as Hs Htl.
    rewrite decide_True by done. simpl. by apply IH.
Qed.

Lemma state_dict_shapes net :
  (λ kt : string * Tensor R, (kt.1, shape kt.2)) <$> state_dict net = parameter_shapes net.
Proof.
  unfold state_dict, state_dict_of, parameter_shapes. by rewrite <- list_fmap_compose.
Qed.

Lemma load_errors_nil_iff net1 net2 :
  load_errors (Network_parameters net2) (state_dict net1) = []
  ↔ parameter_shapes net2 = parameter_shapes net1.
Proof.
  assert (length (hidden_layers net1) = length (hidden_layers net2) →
          load_errors (Network_parameters net2) (state_dict net1) = []
          ↔ parameter_shapes net2 = parameter_shapes net1) as Hdepth.
  { intros Hlen. rewrite (load_errors_same_depth net1 net2 Hlen).
    rewrite mismatch_reports_nil, state_dict_shapes; [done|].
    unfold state_dict. rewrite state_dict_of_keys. by apply Network_keys_depth. }
  split.
  - intros Hnil. apply Hdepth; [|done]. by apply load_errors_nil_depth.
  - intros Hshapes. apply Hdepth; [|done].
    apply (f_equal length) in Hshapes. unfold parameter_shapes in Hshapes.
    rewrite !length_fmap, !Network_parameters_length in Hshapes. lia.
Qed.

Lemma copied_params_equal_shapes sd ps :
  sd.*1 = ps.*1 →
  (λ kp, (kp.1, shape (data kp.2))) <$> ps = (λ kt, (kt.1, shape kt.2)) <$> sd →
  state_dict_of (zip_with copied_param sd ps) = sd
  ∧ (λ kp, (kp.1, grad kp.2)) <$> zip_with copied_param sd ps
    = (λ kp, (kp.1, grad kp.2)) <$> ps.
Proof.
  revert sd. induction ps as [|[key p] ps IH]; intros [|[key' t] sd] Hkeys Hshapes;
    try discriminate Hkeys; [done|].
  rewrite !fmap_cons in Hkeys. injection Hkeys as Hk Hkeys. simpl in Hk. subst key'.
  rewrite !fmap_cons in Hshapes. injection Hshapes as Hs Hshapes. simpl in Hs.
  destruct (IH sd Hkeys Hshapes) as [IH1 IH2].
  cbn [zip_with]. unfold state_dict_of in *. rewrite !fmap_cons, IH1, IH2.
  unfold copied_param. cbn [fst snd]. rewrite decide_True by done. done.
Qed.

Lemma map_hidden_id (f : string → Param R → Param R) ls :
  ∀ k : nat,
    (∀ j l fld, ls !! j = Some l →
       f (hidden_name (k + j) +:+ field_suffix fld) (field_param fld l) = field_param fld l) →
    map_hidden f k ls = ls.
Proof.
  induction ls as [|l ls IH]; intros k Hf; [done|].
  cbn [map_hidden]. f_equal.
  - pose proof (Hf 0 l Weight eq_refl) as Hw. pose proof (Hf 0 l Bias eq_refl) as Hb.
    rewrite Nat.add_0_r in Hw, Hb. simpl in Hw, Hb.
    unfold map_linear. rewrite Hw, Hb. by destruct l.
  - apply IH. intros j l' fld Hj. specialize (Hf (S j) l' fld Hj).
    by rewrite Nat.add_succ_r in Hf.
Qed.

Lemma load_param_own (sdm : gmap string (Tensor R)) (key : string) (p : Param R) :
  sdm !! key = Some (data p) → load_param sdm key p = p.
Proof.
  intros Hkey. unfold load_param. rewrite Hkey, decide_True by done. by destruct p.
Qed.

Lemma load_state_dict_update_own net :
  load_state_dict_update net (state_dict net) = net.
Proof.
  unfold load_state_dict_update, Network_map_parameters.
  rewrite map_hidden_id.
  - assert (map_linear (load_param (list_to_map (state_dict net))) "output" (output net)
            = output net) as ->; [|by destruct net].
    unfold map_linear.
    rewrite (load_param_own _ _ (weight (output net)))
      by apply (lookup_state_dict_output net Weight).
    rewrite (load_param_own _ _ (bias (output net)))
      by apply (lookup_state_dict_output net Bias).
    by destruct (output net).
  - intros j l fld Hj. apply load_param_own. simpl.
    by apply lookup_state_dict_hidden.
Qed.

(** X13.  When loading succeeds.  Loading the state dict of one model
    into another succeeds exactly when the two have the same parameters,
    by name and shape.  The receiving model then holds the values of the
    state dict, and keeps its own gradient buffers, dropout probability
    and mode. *)
Theorem load_state_dict_succeeds_iff_same_shapes net1 net2 :
  ((∃ net', load_state_dict net2 (state_dict net1) = Ok net')
   ↔ parameter_shapes net2 = parameter_shapes net1)
  ∧ ∀ net', load_state_dict net2 (state_dict net1) = Ok net' →
      state_dict net' = state_dict net1
      ∧ parameter_grads net' = parameter_grads net2
      ∧ dropout net' = dropout net2 ∧ training net' = training net2.
Proof.
  split.
  - rewrite <- load_errors_nil_iff. unfold load_state_dict.
    destruct (load_errors _ _) as [|msg msgs]; split; try done; eauto.
    by intros [net' Hnet'].
  - intros net' Hload.
    pose proof (load_state_dict_dropout _ _ _ Hload) as [Hd Ht].
    split_and!; [| |done..]; unfold load_state_dict in Hload;
      destruct (load_errors _ _) as [|msg msgs] eqn:Herr; try done;
      inv_result; subst net';
      pose proof (load_errors_nil_depth _ _ Herr) as Hlen;
      apply load_errors_nil_iff in Herr;
      rewrite <- (state_dict_shapes net1) in Herr;
      (destruct (copied_params_equal_shapes (state_dict net1) (Network_parameters net2))
        as [Hsd Hgr];
       [unfold state_dict; rewrite state_dict_of_keys; by apply Network_keys_depth
       |exact Herr|]).
    + unfold state_dict at 1. by rewrite load_update_same_depth.
    + unfold parameter_grads. by rewrite load_update_same_depth.
Qed.

(** X14.  The round trip of the bare state dict: saving [model.state_dict()]
    to a file, loading the file and giving what it holds back to
    [model.load_state_dict] succeeds and leaves the model exactly as it
    was, whatever its sizes, values and gradient buffers. *)
Theorem state_dict_round_trip net (path : string) (fs : gmap string (Pickle R)) :
  torch_load path (torch_save (PStateDict (state_dict net)) path fs)
  = Ok (PStateDict (state_dict net))
  ∧ load_state_dict net (state_dict net) = Ok net.
Proof.
  split; [apply torch_load_save|].
  unfold load_state_dict.
  rewrite (proj2 (load_errors_nil_iff net net) eq_refl).
  by rewrite load_state_dict_update_own.
Qed.

(** X15.  The keys of a state dict: for a network of [n] hidden layers, the
    weight and the bias of each hidden layer in order and then those of
    the output layer, [2 * n + 2] entries.  No key occurs twice, so each
    tensor is found under its key. *)
Theorem state_dict_keys net :
  (state_dict net).*1
  = (seq 0 (length (hidden_layers net))
       ≫= λ j, [hidden_name j +:+ ".weight"; hidden_name j +:+ ".bias"])
    ++ ["output.weight"; "output.bias"]
  ∧ length (state_dict net) = 2 * length (hidden_layers net) + 2
  ∧ NoDup (state_dict net).*1
  ∧ ∀ i key t, state_dict net !! i = Some (key, t) →
      (list_to_map (state_dict net) : gmap string (Tensor R)) !! key = Some t.
Proof.
  split_and!.
  - unfold state_dict. rewrite state_dict_of_keys. unfold Network_parameters.
    rewrite fmap_app. f_equal.
    assert (∀ k, (hidden_parameters k (hidden_layers net)).*1
                 = seq k (length (hidden_layers net))
                     ≫= λ j, [hidden_name j +:+ ".weight"; hidden_name j +:+ ".bias"])
      as Hk; [|apply Hk].
    induction (hidden_layers net) as [|l ls IH]; intros k; [done|].
    cbn [hidden_parameters length seq]. rewrite bind_cons, fmap_app, IH. done.
  - unfold state_dict, state_dict_of. rewrite length_fmap. apply Network_parameters_length.
  - unfold state_dict. rewrite state_dict_of_keys. apply Network_keys_NoDup.
  - apply state_dict_lookup.
Qed.

(** X16.  What a failed load leaves behind.  For two models of the same
    depth, [load_state_dict] reports exactly the parameters whose shape
    in the state dict is not the shape in the model, in the order of the
    state dict, and no missing or unexpected key; and whether it raises or
    not, it has copied every tensor whose shape fits: the model is left
    with these values of the state dict and, elsewhere, its own. *)
Theorem failed_load_reports_and_copies net1 net2 :
  length (hidden_layers net1) = length (hidden_layers net2) →
  load_errors (Network_parameters net2) (state_dict net1)
  = (zip (state_dict net1) (Network_parameters net2)
       ≫= λ ktp, mismatch_report ktp.1 ktp.2)
  ∧ Network_parameters (load_state_dict_update net2 (state_dict net1))
    = zip_with copied_param (state_dict net1) (Network_parameters net2)
  ∧ (parameter_shapes net2 ≠ parameter_shapes net1 →
     ∃ msgs, load_state_dict net2 (state_dict net1) = Raise (LoadStateDictError msgs)
             ∧ msgs ≠ []).
Proof.
  intros Hlen. split_and!.
  - by apply load_errors_same_depth.
  - by apply load_update_same_depth.
  - intros Hne. unfold load_state_dict.
    destruct (load_errors _ _) as [|msg msgs] eqn:Herr.
    + by apply load_errors_nil_iff in Herr.
    + by exists (msg :: msgs).
Qed.

(** X17.  What [load_checkpoint] makes of other files.  A path that holds
    no file gives [FileNotFoundError]; a file that holds a bare state
    dict, as the notebook first writes under the same name, gives
    [KeyError] for [input_size], whatever the network.  Once the
    checkpoint is saved under that name, what the file held before, and
    what other files hold, does not matter. *)
Theorem load_checkpoint_needs_a_checkpoint (init : string → nat → R) net
    (path : string) (fs : gmap string (Pickle R)) :
  load_checkpoint init path (delete path fs) = Raise (FileNotFoundError path)
  ∧ load_checkpoint init path (torch_save (PStateDict (state_dict net)) path fs)
    = Raise (KeyError "input_size")
  ∧ load_checkpoint init path (save_checkpoint net path fs)
    = load_checkpoint init path (save_checkpoint net path ∅).
Proof.
  split_and!.
  - unfold load_checkpoint, torch_load. by rewrite lookup_delete_eq.
  - unfold load_checkpoint. rewrite torch_load_save, bind_Ok_l.
    assert (getitem (PStateDict (state_dict net)) "input_size"
            = Raise (KeyError "input_size")) as ->; [|done].
    unfold getitem.
    rewrite (not_elem_of_list_to_map_1 (state_dict net) "input_size"); [done|].
    unfold state_dict. rewrite state_dict_of_keys.
    unfold Network_parameters. rewrite fmap_app, elem_of_app.
    intros [(j & f & _ & Hkey)%elem_of_hidden_keys|Hout].
    + unfold hidden_name in Hkey. simpl in Hkey. discriminate Hkey.
    + simpl in Hout. rewrite !elem_of_cons in Hout.
      destruct Hout as [Hout|[Hout|Hout%elem_of_nil]]; done.
  - by rewrite !load_saved_checkpoint.
Qed.

End MoreStateDict.

(** * Runs of the rest on the sample inputs *)

Lemma epoch_lines_are_window_sums_witness :
  run_epoch sample_criterion sample_autograd sample_uninitQ sample_optimizer
    epochs 3 (sample_loader 7) sample_long_state_1 1 = Ok sample_long_state_2
  ∧ stdout sample_long_state_2 = stdout sample_long_state_1 ++
      ((λ j, mkReport (1 + 1) epochs
               (rdiv_int
                  (sum_losses
                     match j with
                     | 0 =>
                         take (3 - steps sample_long_state_1 mod 3)
                           (loss_items sample_criterion sample_autograd sample_uninitQ
                              sample_optimizer (model sample_long_state_1)
                              (sample_loader 7 1))
                     | S i =>
                         take 3
                           (drop (3 - steps sample_long_state_1 mod 3 + i * 3)
                              (loss_items sample_criterion sample_autograd sample_uninitQ
                                 sample_optimizer (model sample_long_state_1)
                                 (sample_loader 7 1)))
                     end)
                  (Z.of_nat 3)))
       <$> seq 0 ((steps sample_long_state_1 + length (sample_loader 7 1)) / 3
                  - steps sample_long_state_1 / 3)).
Proof.
  assert (run_epoch sample_criterion sample_autograd sample_uninitQ sample_optimizer
    epochs 3 (sample_loader 7) sample_long_state_1 1 = Ok sample_long_state_2) as H
    by (vm_compute; reflexivity).
  split; [exact H|].
  exact (proj1 (proj2 (epoch_lines_are_window_sums sample_criterion sample_autograd
    sample_uninitQ sample_optimizer epochs 3 (sample_loader 7) 1
    sample_long_state_1 sample_long_state_2 H))).
Defined.

Lemma run_prints_a_line_every_print_every_steps_witness :
  run_epochs sample_criterion sample_autograd sample_uninitQ sample_optimizer
    epochs 3 (sample_loader 7) sample_modelQ 2 = Ok sample_long_state_2
  ∧ steps sample_long_state_2 = 2 * 7
  ∧ length (stdout sample_long_state_2) = (2 * 7) / 3.
Proof.
  assert (run_epochs sample_criterion sample_autograd sample_uninitQ sample_optimizer
    epochs 3 (sample_loader 7) sample_modelQ 2 = Ok sample_long_state_2) as H
    by (vm_compute; reflexivity).
  split; [exact H|].
  pose proof (run_prints_a_line_every_print_every_steps sample_criterion sample_autograd
    sample_uninitQ sample_optimizer epochs 3 (sample_loader 7) sample_modelQ 7 2
    sample_long_state_2 (λ e, length_replicate 7 sample_batch) H) as (Hs & Hl & _).
  split; [exact Hs | exact Hl].
Defined.

(** In that run the first epoch prints two lines, for steps 3 and 6, and
    the second prints two, for steps 9 and 12: the first of them sums two
    losses, the second three, and the last two losses of each epoch are
    in no line. *)
Lemma sample_long_run :
  report_epoch <$> stdout sample_long_state_2 = [1; 1; 2; 2]
  ∧ 3 - steps sample_long_state_1 mod 3 = 2
  ∧ (steps sample_long_state_1 + 7) mod 3 = 2.
Proof. split_and!; vm_compute; reflexivity. Qed.

Lemma training_step_moves_weights_against_gradient_witness :
  training_step sample_criterion sample_autograd sample_uninitQ
    (optim_SGD (named_parameters sample_modelQ) 1%Q) sample_modelQ sample_batch
  = Ok sample_step
  ∧ Forall2 (λ np np',
       np'.1 = np.1
       ∧ ∃ g, grad np'.2 = Some g
              ∧ data np'.2 = tensor_axpy (ropp 1%Q) (data np.2) g)
      (named_parameters sample_modelQ) (named_parameters sample_step.1).
Proof.
  assert (training_step sample_criterion sample_autograd sample_uninitQ
    (optim_SGD (named_parameters sample_modelQ) 1%Q) sample_modelQ sample_batch
    = Ok (sample_step.1, sample_step.2)) as H by (vm_compute; reflexivity).
  split; [exact H|].
  exact (proj2 (training_step_moves_weights_against_gradient sample_criterion
    sample_autograd sample_uninitQ 1%Q sample_modelQ sample_batch
    sample_step.1 sample_step.2 H)).
Defined.

Lemma training_keeps_the_architecture_witness :
  run_epochs sample_criterion sample_autograd sample_uninitQ sample_optimizer
    epochs 3 (sample_loader 2) sample_modelQ 1 = Ok sample_state_1
  ∧ architecture (model sample_state_1) = architecture sample_modelQ
  ∧ named_shapes (model sample_state_1) = named_shapes sample_modelQ.
Proof.
  assert (run_epochs sample_criterion sample_autograd sample_uninitQ sample_optimizer
    epochs 3 (sample_loader 2) sample_modelQ 1 = Ok sample_state_1) as H
    by (vm_compute; reflexivity).
  split; [exact H|].
  pose proof (training_keeps_the_architecture sample_criterion sample_autograd
    sample_uninitQ sample_optimizer epochs 3 (sample_loader 2) sample_modelQ 1
    sample_state_1 H) as (Ha & Hs & _).
  split; [exact Ha | exact Hs].
Defined.

Lemma reporting_does_not_touch_training_witness :
  run_epochs sample_criterion sample_autograd sample_uninitQ sample_optimizer
    epochs 3 (sample_loader 7) sample_modelQ 2 = Ok sample_long_state_2
  ∧ run_epochs sample_criterion sample_autograd sample_uninitQ sample_optimizer
      5 print_every (sample_loader 7) sample_modelQ 2 = Ok sample_quiet_state_2
  ∧ model sample_long_state_2 = model sample_quiet_state_2
  ∧ steps sample_long_state_2 = steps sample_quiet_state_2.
Proof.
  assert (run_epochs sample_criterion sample_autograd sample_uninitQ sample_optimizer
    epochs 3 (sample_loader 7) sample_modelQ 2 = Ok sample_long_state_2) as H1
    by (vm_compute; reflexivity).
  assert (run_epochs sample_criterion sample_autograd sample_uninitQ sample_optimizer
    5 print_every (sample_loader 7) sample_modelQ 2 = Ok sample_quiet_state_2) as H2
    by (vm_compute; reflexivity).
  split; [exact H1|]. split; [exact H2|].
  exact (reporting_does_not_touch_training sample_criterion sample_autograd
    sample_uninitQ sample_optimizer epochs 3 5 print_every (sample_loader 7)
    sample_modelQ 2 sample_long_state_2 sample_quiet_state_2 H1 H2).
Defined.

(** The two runs print four lines and none. *)
Lemma sample_runs_differ_in_output :
  length (stdout sample_long_state_2) = 4 ∧ stdout sample_quiet_state_2 = [].
Proof. split; reflexivity. Qed.

Lemma single_step_resize_pads_or_cuts_witness :
  shape sample_mnist_batch = [2; 1; 28; 28]
  ∧ elems (resize_ sample_uninit sample_mnist_batch [64; 784])
    = elems sample_mnist_batch ++ (sample_uninit <$> seq (2 * 784) ((64 - 2) * 784)).
Proof.
  split; [reflexivity|].
  refine (proj1 (proj1 (proj2 (proj2 (proj2 (single_step_resize_pads_or_cuts sample_uninit
    sample_mnist_batch 2 [1; 28; 28] _ _ _)))) _)).
  - reflexivity.
  - reflexivity.
  - reflexivity.
  - lia.
Defined.

Lemma failed_load_reports_and_copies_witness :
  load_errors (Network_parameters sample_other_network) (state_dict sample_network)
  = (zip (state_dict sample_network) (Network_parameters sample_other_network)
       ≫= λ ktp, mismatch_report ktp.1 ktp.2)
  ∧ Network_parameters (load_state_dict_update sample_other_network (state_dict sample_network))
    = zip_with copied_param (state_dict sample_network)
        (Network_parameters sample_other_network).
Proof.
  pose proof (failed_load_reports_and_copies sample_network sample_other_network eq_refl)
    as (He & Hc & _).
  split; [exact He | exact Hc].
Defined.

Lemma flatten_keeps_the_values_witness :
  shape sample_mnist_batch = [2; 1; 28; 28]
  ∧ ∃ t', flatten_images sample_uninit sample_mnist_batch = Ok t'
      ∧ shape t' = [2; 784]
      ∧ elems t' = take (2 * 784) (storage sample_mnist_batch)
                   ++ (sample_uninit <$> seq (2 * numel [1; 28; 28])
                                           (2 * 784 - 2 * numel [1; 28; 28]))
      ∧ (numel [1; 28; 28] = 784 →
         t' = mkTensor [2; 784] (storage sample_mnist_batch)
         ∧ elems t' = elems sample_mnist_batch
         ∧ ∀ r, row 784 (elems t') r
                = row (flat_dim sample_mnist_batch) (elems sample_mnist_batch) r).
Proof.
  split; [reflexivity|].
  exact (proj2 (flatten_keeps_the_values sample_uninit sample_mnist_batch 2 [1; 28; 28]
                  eq_refl eq_refl)).
Defined.

Lemma prediction_cell_checks_the_image_size_witness :
  model_of sample_init 784 [3; 2]%Z 2 = Ok sample_model
  ∧ ∃ logits,
      forward sample_model (mkTensor [1; 784] (take 784 (storage sample_mnist_batch)))
      = Ok logits
      ∧ shape logits = [1; Z.to_nat 2]
      ∧ predict (λ t, t) sample_model (sample_mnist_batch, [7; 1]%Z)
        = Ok (7%Z, mkTensor [1; 28; 28] (take 784 (storage sample_mnist_batch)), logits).
Proof.
  split; [exact sample_model_built|].
  refine (proj2 (proj2 (proj2 (proj2 (prediction_cell_checks_the_image_size sample_init
    (λ t, t) 784 2 [3; 2]%Z sample_model sample_mnist_batch 7%Z [1%Z] 2 [1; 28; 28]
    sample_model_built eq_refl eq_refl)))) _ _ _).
  - lia.
  - reflexivity.
  - reflexivity.
Defined.

(** A batch of 3 by 3 images is resized by the training loop and rejected
    by the cell that checks a prediction. *)
Lemma small_images_are_rejected_by_view :
  predict (λ t, t) sample_model (sample_small_batch, [7; 1]%Z)
  = Raise (InputShapeError [1; 3; 3] [1; 784]).
Proof. vm_compute. reflexivity. Qed.

(** The hidden sizes after the second are not read, and one hidden size
    is not enough. *)
Lemma sample_model_cell_edges :
  model_of sample_init 784 [3; 2; 0; -5]%Z 2 = Ok sample_model
  ∧ model_of sample_init 784 [3]%Z 2 = Raise IndexError.
Proof. split; [vm_compute; reflexivity | reflexivity]. Qed.

Lemma loader_yields_every_example_once_witness :
  seq 0 10 ≠ []
  ∧ DataLoader (seq 0 10) 4 = Some (mkLoader (seq 0 10) 4)
  ∧ iter_loader length (λ _ l, reverse l) (mkLoader (seq 0 10) 4) 0
    = length <$> batch_sampler (Z.to_nat 4) [] (reverse (seq 0 10))
  ∧ length (iter_loader length (λ _ l, reverse l) (mkLoader (seq 0 10) 4) 0)
    = loader_len (mkLoader (seq 0 10) 4).
Proof.
  assert (seq 0 10 ≠ []) as Hne by discriminate.
  split; [exact Hne|]. split; [reflexivity|].
  pose proof (proj2 (loader_yields_every_example_once length (λ _ l, reverse l)
    (seq 0 10) 4 0 Hne (λ _ l, reverse_Permutation l))
    (mkLoader (seq 0 10) 4) eq_refl) as (Hi & _ & _ & _ & Hl & _).
  split; [exact Hi | exact Hl].
Defined.

(** Ten examples in batches of four: two full batches and one of two. *)
Lemma sample_loader_batches :
  batch_sampler 4 [] (seq 0 10) = [[0; 1; 2; 3]; [4; 5; 6; 7]; [8; 9]]
  ∧ loader_len (mkLoader (seq 0 10) 4) = 3
  ∧ DataLoader (seq 0 10) 0 = None.
Proof. split_and!; reflexivity. Qed.

(** Loading the state dict of the trained sample network into a network
    of another hidden width raises, and has copied the bias of the output
    layer, whose shape fits. *)
Lemma sample_failed_load_copies :
  load_state_dict sample_other_network (state_dict sample_trained_network)
  = Raise (LoadStateDictError
      [SizeMismatch "hidden_layers.0.weight" [2; 3] [4; 3];
       SizeMismatch "hidden_layers.0.bias" [2] [4];
       SizeMismatch "output.weight" [2; 2] [2; 4]])
  ∧ data (bias (output sample_other_network)) = mkTensor [2] [1; -1]%Z
  ∧ data (bias (output (load_state_dict_update sample_other_network
                          (state_dict sample_trained_network))))
    = mkTensor [2] [5; 5]%Z
  ∧ data (weight (output (load_state_dict_update sample_other_network
                            (state_dict sample_trained_network))))
    = data (weight (output sample_other_network)).
Proof. split_and!; vm_compute; reflexivity. Qed.

Lemma load_state_dict_succeeds_iff_same_shapes_witness :
  parameter_shapes sample_network = parameter_shapes sample_trained_network
  ∧ ∃ net', load_state_dict sample_network (state_dict sample_trained_network) = Ok net'.
Proof.
  assert (parameter_shapes sample_network = parameter_shapes sample_trained_network) as H
    by reflexivity.
  split; [exact H|].
  exact (proj2 (proj1 (load_state_dict_succeeds_iff_same_shapes sample_trained_network
                         sample_network)) H).
Defined.
